(** * A shallow embedding of the survey bot of [LiteSurveyInterceptor.py]

    The bot logic of class [SurveyBot] is modelled as computations in a
    state-and-exception monad: the state holds the browser page, the
    [running] flag, the delay window, the response profile, the stream of
    random draws and a trace of the observable actions (clicks, sleeps,
    writes).  Python exceptions are values of [exn]; a raised exception
    keeps the state changes made before it, as in Python. *)

From Stdlib Require Import String Ascii List ZArith QArith Qround Lia Lqa Bool Permutation
  SpecFloat.
Import ListNotations.
Open Scope Z_scope.

(* ------------------------------------------------------------------ *)
(** ** Python strings (ASCII model of [str]) *)

Module Py.

(** [str.lower] on ASCII characters. *)
Definition lower_char (c : ascii) : ascii :=
  let n := nat_of_ascii c in
  if (Nat.leb 65 n && Nat.leb n 90)%bool then ascii_of_nat (n + 32) else c.

Fixpoint lower (s : string) : string :=
  match s with
  | EmptyString => EmptyString
  | String c s' => String (lower_char c) (lower s')
  end.

(** [str.isspace] on ASCII: tab, LF, VT, FF, CR, the separators
    0x1c-0x1f and the space. *)
Definition isspace (c : ascii) : bool :=
  let n := nat_of_ascii c in
  (Nat.leb 9 n && Nat.leb n 13) || (Nat.leb 28 n && Nat.leb n 32).

Fixpoint lstrip (s : string) : string :=
  match s with
  | EmptyString => EmptyString
  | String c s' => if isspace c then lstrip s' else s
  end.

Definition rstrip (s : string) : string :=
  string_of_list_ascii (rev (list_ascii_of_string (lstrip
    (string_of_list_ascii (rev (list_ascii_of_string s)))))).

(** [str.strip()] with no argument. *)
Definition strip (s : string) : string := lstrip (rstrip s).

Fixpoint prefix (p s : string) : bool :=
  match p, s with
  | EmptyString, _ => true
  | String a p', String b s' => Ascii.eqb a b && prefix p' s'
  | String _ _, EmptyString => false
  end.

(** [needle in hay] for strings. *)
Fixpoint contains (needle hay : string) : bool :=
  prefix needle hay ||
  match hay with
  | EmptyString => false
  | String _ hay' => contains needle hay'
  end.

(** Truthiness of a string and of [x or y] on optional strings
    ([None] is Python's [None]). *)
Definition truthy (s : string) : bool :=
  match s with EmptyString => false | _ => true end.

Definition or_str (a : option string) (b : string) : string :=
  match a with Some s => if truthy s then s else b | None => b end.

End Py.

(* ------------------------------------------------------------------ *)
(** ** Python floats

    A Python [float] is an IEEE 754 binary64 number: the Standard
    Library's [spec_float] with 53-bit precision and maximal exponent
    1024, whose operations round to nearest, ties to even, as CPython's
    do. *)

Definition float : Type := spec_float.
Definition fadd (x y : float) : float := SFadd 53 1024 x y.
Definition fsub (x y : float) : float := SFsub 53 1024 x y.
Definition fmul (x y : float) : float := SFmul 53 1024 x y.

(** [x < y]; false when one of them is NaN. *)
Definition flt (x y : float) : bool := SFltb x y.

(** The float nearest to [m * 2 ^ e], for [m >= 0]. *)
Definition fl (m e : Z) : float := binary_normalize 53 1024 m e false.

(** The float literals of the source, as Python parses them. *)
Definition f0_0 : float := fl 0 0.                          (* 0.0 *)
Definition f0_05 : float := fl 3602879701896397 (-56).      (* 0.05 *)
Definition f0_1 : float := fl 3602879701896397 (-55).       (* 0.1 *)
Definition f0_12 : float := fl 1080863910568919 (-53).      (* 0.12 *)
Definition f0_4 : float := fl 3602879701896397 (-53).       (* 0.4 *)
Definition f1_0 : float := fl 1 0.                          (* 1.0 *)
Definition f2_5 : float := fl 5 (-1).                       (* 2.5 *)

(* ------------------------------------------------------------------ *)
(** ** Exceptions and the bot monad *)

Inductive exn :=
| ValueError        (* e.g. [random.randint] on an empty range *)
| IndexError        (* [random.choice] on an empty sequence *)
| NoSuchElement     (* [find_element] found nothing *)
| WebDriverError    (* any failure of a driver call *)
| AttributeError    (* attribute access on [None] *)
| NameError.        (* use of an unbound local *)

Inductive res (A : Type) :=
| Ok (a : A)
| Raise (e : exn).
Arguments Ok {A} a.
Arguments Raise {A} e.

(** The page as the driver shows it.  An element carries what the bot
    can observe of it through Selenium calls. *)
Inductive kind :=
| RadioInput      (* input[type='radio'] *)
| RadioRole       (* [role='radio'] that is not a radio input *)
| CheckInput      (* input[type='checkbox'] *)
| CheckRole       (* [role='checkbox'] that is not a checkbox input *)
| TextInput       (* input[type='text'], input:not([type]), [role='textbox'] *)
| TextArea        (* textarea *)
| OtherKind.

Record Elem := mkElem {
  e_no : nat;                    (* identity of the element *)
  e_kind : kind;
  e_name : string;               (* HTML [name]: radios of one name form one group *)
  e_divs : list nat;             (* div ancestors, nearest first *)
  e_hash : string;               (* str(hash(el)) *)
  e_selected : bool;             (* el.is_selected() *)
  e_value : option string;       (* el.get_attribute("value") *)
  e_aria_label : option string;  (* el.get_attribute("aria-label") *)
  e_aria_labelledby : option string;
  e_anc_label : option string;   (* text of ancestor::label[1]; None: NoSuchElement *)
  e_prec_label : option string;  (* text of preceding::label[1]; None: NoSuchElement *)
  e_click_ok : bool;             (* el.click() succeeds *)
  e_chain_ok : bool;             (* ActionChains move_to_element/click succeeds *)
  e_scroll_ok : bool;            (* scrollIntoView script succeeds *)
  e_dispatch_ok : bool;          (* synthetic event dispatch script succeeds *)
  e_clear_ok : bool;             (* el.clear() succeeds *)
  e_send_ok : bool               (* el.send_keys(..) succeeds *)
}.

Record Div := mkDiv {
  d_no : nat;
  d_icid : option string;        (* get_attribute("data-interceptor-id") *)
  d_id : option string;          (* get_attribute("id") *)
  d_hash : string                (* str(hash(anc)) *)
}.

Record Page := mkPage {
  pg_elems : list Elem;          (* in document order *)
  pg_divs : list Div;
  pg_ids : list (string * string); (* (id attribute, text) of elements with an id *)
  pg_iframes : res (list (res (option string)));
    (* find_elements(By.TAG_NAME, "iframe"), each with get_attribute("src") *)
  pg_texts : res (list (list string))
    (* for each element in document order, its child text nodes: what the
       XPath //*[...text()...] query ranges over; Raise: the query fails *)
}.

(** The response profile is a dict read with [.get(key, default)]. *)
Record Profile := mkProfile {
  pr_text : option (list string);
  pr_textarea : option (list string)
}.

Inductive event :=
| EvStage (n : nat) (stage : nat)  (* click stage attempted: 1 direct, 2 chain, 3 scroll, 4 dispatch *)
| EvSleep (d : float)            (* time.sleep(d) *)
| EvClear (n : nat)
| EvKeys (n : nat) (s : string)  (* send_keys *)
| EvLog (tag : string) (msg : string).

Record St := mkSt {
  st_page : Page;
  st_running : bool;             (* self.running *)
  st_alive : bool;               (* self.alive *)
  st_driver : bool;              (* self.driver is not None *)
  st_chains : bool;              (* ActionChains is not None *)
  st_dmin : float;               (* self.delay_min *)
  st_dmax : float;               (* self.delay_max *)
  st_profile : Profile;          (* self.profile *)
  st_rng : list Z;               (* raw draws of the random generator *)
  st_trace : list event          (* observable actions, oldest first *)
}.

Definition set_page (p : Page) (s : St) : St :=
  mkSt p (st_running s) (st_alive s) (st_driver s) (st_chains s) (st_dmin s)
    (st_dmax s) (st_profile s) (st_rng s) (st_trace s).
Definition set_running (b : bool) (s : St) : St :=
  mkSt (st_page s) b (st_alive s) (st_driver s) (st_chains s) (st_dmin s)
    (st_dmax s) (st_profile s) (st_rng s) (st_trace s).
Definition set_rng (r : list Z) (s : St) : St :=
  mkSt (st_page s) (st_running s) (st_alive s) (st_driver s) (st_chains s)
    (st_dmin s) (st_dmax s) (st_profile s) r (st_trace s).
Definition add_event (ev : event) (s : St) : St :=
  mkSt (st_page s) (st_running s) (st_alive s) (st_driver s) (st_chains s)
    (st_dmin s) (st_dmax s) (st_profile s) (st_rng s) (st_trace s ++ [ev]).

Definition M (A : Type) : Type := St -> res A * St.

Definition ret {A} (a : A) : M A := fun s => (Ok a, s).
Definition bind {A B} (m : M A) (k : A -> M B) : M B :=
  fun s => match m s with
           | (Ok a, s') => k a s'
           | (Raise e, s') => (Raise e, s')
           end.
Definition raise {A} (e : exn) : M A := fun s => (Raise e, s).
(** [try: m except Exception as e: h e] *)
Definition try_ {A} (m : M A) (h : exn -> M A) : M A :=
  fun s => match m s with
           | (Raise e, s') => h e s'
           | r => r
           end.
Definition gets {A} (f : St -> A) : M A := fun s => (Ok (f s), s).
Definition modify (f : St -> St) : M unit := fun s => (Ok tt, f s).
Definition emit (ev : event) : M unit := modify (add_event ev).
Definition log (tag msg : string) : M unit := emit (EvLog tag msg).

Notation "x <- m ;; k" := (bind m (fun x => k))
  (at level 61, m at next level, right associativity).
Notation "m ;;; k" := (bind m (fun _ => k))
  (at level 61, right associativity).

(* ------------------------------------------------------------------ *)
(** ** The [random] module over a stream of raw draws *)

Definition draw : M Z :=
  fun s => match st_rng s with
           | [] => (Ok 0, s)
           | d :: ds => (Ok d, set_rng ds s)
           end.

(** [_randbelow(n)], for [n > 0]. *)
Definition randbelow (n : Z) : M Z := d <- draw ;; ret (d mod n).

(** [random.random()]: a 53-bit fraction in [0, 1).  [random_of d] is its
    exact value, [frandom_of d] the same number as a float (it has at most
    53 significant bits, so it is represented exactly). *)
Definition random_of (d : Z) : Q := inject_Z (d mod 2 ^ 53) / inject_Z (2 ^ 53).
Definition random : M Q := d <- draw ;; ret (random_of d).

Definition frandom_of (d : Z) : float := fl (d mod 2 ^ 53) (-53).
Definition frandom : M float := d <- draw ;; ret (frandom_of d).

(** [random.uniform(a, b) = a + (b - a) * random()], in floats. *)
Definition uniform (a b : float) : M float :=
  r <- frandom ;; ret (fadd a (fmul (fsub b a) r)).

(** [random.randrange(start, stop)] raises on an empty range. *)
Definition randrange (start stop : Z) : M Z :=
  let width := stop - start in
  if width <=? 0 then raise ValueError
  else r <- randbelow width ;; ret (start + r).

(** [random.randint(a, b) = randrange(a, b + 1)] *)
Definition randint (a b : Z) : M Z := randrange a (b + 1).

(** [random.choice(seq)] *)
Definition choice {A} (xs : list A) : M A :=
  match xs with
  | [] => raise IndexError
  | x :: _ => i <- randbelow (Z.of_nat (length xs)) ;; ret (nth (Z.to_nat i) xs x)
  end.

(** [random.choices(["Yes","No"], weights=[w, 1-w])[0]]: bisection of
    [random() * total] in the cumulative weights [w, 1]. *)
Definition choices_yes_no (w : Q) : M string :=
  r <- random ;; ret (if Qle_bool w r then "No" else "Yes")%string.

(** [random.sample(population, k)], pool algorithm: position [i] takes
    [pool[j]] for [j = _randbelow(n - i)], and [pool[j]] is refilled with
    [pool[n - i - 1]]. *)
Fixpoint sample_loop {A} (fuel : nat) (i n : Z) (pool : list A) : M (list A) :=
  match fuel, pool with
  | O, _ => ret []
  | S f, [] => ret []
  | S f, p0 :: _ =>
      j <- randbelow (n - i) ;;
      let x := nth (Z.to_nat j) pool p0 in
      let last := nth (Z.to_nat (n - i - 1)) pool p0 in
      let pool' := firstn (Z.to_nat j) pool ++ last :: skipn (S (Z.to_nat j)) pool in
      rest <- sample_loop f (i + 1) n pool' ;;
      ret (x :: rest)
  end.

Definition sample {A} (population : list A) (k : Z) : M (list A) :=
  let n := Z.of_nat (length population) in
  if (k <? 0) || (n <? k) then raise ValueError
  else sample_loop (Z.to_nat k) 0 n population.

(* ------------------------------------------------------------------ *)
(** ** Configuration constants *)

Open Scope string_scope.

Definition PRESET_WORDS : list string := ["Yes"; "No"; "Maybe"; "Sure"; "I agree"].
Definition TEXTAREA_SENTENCES : list string :=
  ["I think that's reasonable and I'd consider it.";
   "No additional comments.";
   "I don't have a strong preference.";
   "This seems okay to me."].

Definition KW_yesno : list string :=
  ["support"; "agree"; "do you"; "should"; "is it"; "yes/no"; "would you"].
Definition KW_numbers : list string := ["age"; "years"; "how many"; "number of"; "how old"].
Definition KW_favorite : list string := ["favorite"; "prefer"; "which do you prefer"].
Definition KW_opinion : list string :=
  ["thoughts"; "comments"; "suggestions"; "opinion"; "ideas"; "why"; "explain"].
Definition KW_location : list string :=
  ["city"; "state"; "country"; "where do you live"; "residence"].

(** [HUMAN_WEIGHTS.get("radio", 0.7)]: the exact value of the float 0.7.
    With the weights [[0.7, 1 - 0.7]] the cumulative total is exactly 1.0,
    so [random() * total] is [random()] itself. *)
Definition HUMAN_WEIGHT_radio : Q := 3152519739159347 # 4503599627370496.

Close Scope string_scope.

(** [any(k in q for k in kws)] *)
Definition any_kw (kws : list string) (q : string) : bool :=
  existsb (fun k => Py.contains k q) kws.

(** [self.profile.get("text", PRESET_WORDS)] and
    [self.profile.get("textarea", TEXTAREA_SENTENCES)] *)
Definition profile_text (p : Profile) : list string :=
  match pr_text p with Some l => l | None => PRESET_WORDS end.
Definition profile_textarea (p : Profile) : list string :=
  match pr_textarea p with Some l => l | None => TEXTAREA_SENTENCES end.

(** Python [str(n)] for a non-negative integer. *)
Fixpoint digits (fuel : nat) (n : Z) (acc : string) : string :=
  match fuel with
  | O => acc
  | S f =>
      let acc' := String (ascii_of_nat (48 + Z.to_nat (n mod 10))) acc in
      if n <? 10 then acc' else digits f (n / 10) acc'
  end.
Definition str_of_Z (n : Z) : string := digits (S (Z.to_nat n)) n EmptyString.

(* ------------------------------------------------------------------ *)
(** ** [SurveyBot.intelligent_answer]

    The branches of the if-chain are named after what they return. *)

Definition ans_yesno : M string := choices_yes_no HUMAN_WEIGHT_radio.

Definition ans_numeric : M string := n <- randint 18 65 ;; ret (str_of_Z n).

Definition ans_favorite (options : list string) : M string := choice options.

Definition ans_opinion : M string :=
  r <- random ;;
  p <- gets st_profile ;;
  if Qle_bool (1 # 2) r then choice (profile_text p)
  else choice (profile_textarea p).

Definition ans_fallback (options : list string) : M string :=
  match options with
  | [] => p <- gets st_profile ;; choice (profile_text p)
  | o0 :: _ => try_ (choice options) (fun _ => ret o0)
  end.

(** [qtext] is [None] or a string; [options] is [None] or a list, both
    falsy when empty, so [None] is the empty list. *)
Definition intelligent_answer (qtext : option string) (options : list string) : M string :=
  let q := Py.lower (match qtext with Some t => t | None => EmptyString end) in
  if any_kw KW_yesno q then ans_yesno
  else if any_kw KW_numbers q then ans_numeric
  else if (match options with [] => false | _ => true end) && any_kw KW_favorite q
  then ans_favorite options
  else if any_kw KW_opinion q then ans_opinion
  else ans_fallback options.

(** The question classifier of the specification, in its own words: the
    first matching keyword set in the order yes/no, numeric, favorite
    (only with options), opinion; otherwise free form. *)
Inductive Strategy := YesNo | Numeric | Favorite | Opinion | Freeform.

Definition spec_classify (qtext : string) (options : list string) : Strategy :=
  let q := Py.lower qtext in
  if existsb (fun k => Py.contains k q) KW_yesno then YesNo
  else if existsb (fun k => Py.contains k q) KW_numbers then Numeric
  else if negb (Nat.eqb (length options) 0)
          && existsb (fun k => Py.contains k q) KW_favorite then Favorite
  else if existsb (fun k => Py.contains k q) KW_opinion then Opinion
  else Freeform.

(** The answer path of each strategy. *)
Definition strategy_answer (s : Strategy) (options : list string) : M string :=
  match s with
  | YesNo => ans_yesno
  | Numeric => ans_numeric
  | Favorite => ans_favorite options
  | Opinion => ans_opinion
  | Freeform => ans_fallback options
  end.

(* ------------------------------------------------------------------ *)
(** ** Concrete configurations used by the examples *)

Definition empty_page : Page := mkPage [] [] [] (Ok []) (Ok []).

(** A bot as [SurveyBot.__init__] leaves it after [configure] with the
    default delays 1.0 and 2.5, and with the given page, profile and draws. *)
Definition bot_state (pg : Page) (pr : Profile) (draws : list Z) : St :=
  mkSt pg true true true true f1_0 f2_5 pr draws [].

Definition default_profile : Profile :=
  mkProfile (Some PRESET_WORDS) (Some TEXTAREA_SENTENCES).

(* ------------------------------------------------------------------ *)
(** ** [SurveyBot._rand_delay] and [SurveyBot._interruptible_sleep]

    Durations are Python floats: [slept += resolution] and
    [total - slept] are rounded float operations. *)

(** [resolution = 0.1] *)
Definition resolution : float := f0_1.

(** [random.uniform(self.delay_min, self.delay_max) + random.uniform(0, 0.4)] *)
Definition rand_delay : M float :=
  dmin <- gets st_dmin ;;
  dmax <- gets st_dmax ;;
  u1 <- uniform dmin dmax ;;
  u2 <- uniform f0_0 f0_4 ;;
  ret (fadd u1 u2).

(** Python's [min(a, b)]: [b] if [b < a], else [a]. *)
Definition py_min (a b : float) : float := if flt b a then b else a.

(** A run of [while slept < total: ...]: still looping, with [slept], the
    number [n] of slices done and the [time.sleep] durations so far, or
    returned with its result.  [running n] is the value of [self.running]
    read before slice [n] (another thread may change it between slices).
    The argument of [time.sleep] is positive, since [slept < total]. *)
Inductive sleep_state :=
| Looping (slept : float) (n : nat) (ds : list float)
| Returned (b : bool) (ds : list float).

(** One test of the loop guard, with the iteration it lets through. *)
Definition sleep_step (total : float) (running : nat -> bool) (st : sleep_state) : sleep_state :=
  match st with
  | Looping slept n ds =>
      if flt slept total then
        if negb (running n) then Returned false ds
        else Looping (fadd slept resolution) (S n) (ds ++ [py_min resolution (fsub total slept)])
      else Returned true ds
  | Returned b ds => Returned b ds
  end.

(** [p] steps of the loop, by repeated doubling (a run that has returned
    is not stepped further). *)
Fixpoint sleep_steps (p : positive) (total : float) (running : nat -> bool)
    (st : sleep_state) : sleep_state :=
  match st with
  | Returned _ _ => st
  | Looping _ _ _ =>
      match p with
      | xH => sleep_step total running st
      | xO q => sleep_steps q total running (sleep_steps q total running st)
      | xI q => sleep_step total running
                  (sleep_steps q total running (sleep_steps q total running st))
      end
  end.

(** The loop never ends when [total] exceeds every float sum of slices
    (from [2 ^ 50] on, adding [0.1] leaves [slept] unchanged) and
    [running] stays true; the model follows a run for [2 ^ 62] slices,
    more than [10 ^ 10] years of sleeping, and reports a run still going
    then as an interrupted pacing. *)
Definition sleep_fuel : positive := 4611686018427387904.

Definition interruptible_sleep_for (total : float) (running : nat -> bool) : bool * list float :=
  match sleep_steps sleep_fuel total running (Looping f0_0 0 []) with
  | Returned b ds => (b, ds)
  | Looping _ _ ds => (false, ds)
  end.

(** Within one bot computation [self.running] is read from the state. *)
Definition interruptible_sleep : M bool :=
  total <- rand_delay ;;
  r <- gets st_running ;;
  let (b, ds) := interruptible_sleep_for total (fun _ => r) in
  modify (fun s => fold_left (fun s d => add_event (EvSleep d) s) ds s) ;;;
  ret b.

(** The value of [slept] after [n] slices: [n] float additions of
    [resolution] to [0.0]. *)
Fixpoint slept_after (n : nat) : float :=
  match n with
  | O => f0_0
  | S k => fadd (slept_after k) resolution
  end.

(* ------------------------------------------------------------------ *)
(** ** Live element state and the browser's click behaviour *)

(** The current version of an element on the page ([is_selected()] and
    [get_attribute("value")] read the live DOM). *)
Definition live_in (pg : Page) (el : Elem) : Elem :=
  match find (fun e => Nat.eqb (e_no e) (e_no el)) (pg_elems pg) with
  | Some e => e
  | None => el
  end.

Definition live (el : Elem) : M Elem := pg <- gets st_page ;; ret (live_in pg el).

Definition with_selected (b : bool) (e : Elem) : Elem :=
  mkElem (e_no e) (e_kind e) (e_name e) (e_divs e) (e_hash e) b (e_value e)
    (e_aria_label e) (e_aria_labelledby e) (e_anc_label e) (e_prec_label e)
    (e_click_ok e) (e_chain_ok e) (e_scroll_ok e) (e_dispatch_ok e)
    (e_clear_ok e) (e_send_ok e).

Definition with_value (v : option string) (e : Elem) : Elem :=
  mkElem (e_no e) (e_kind e) (e_name e) (e_divs e) (e_hash e) (e_selected e) v
    (e_aria_label e) (e_aria_labelledby e) (e_anc_label e) (e_prec_label e)
    (e_click_ok e) (e_chain_ok e) (e_scroll_ok e) (e_dispatch_ok e)
    (e_clear_ok e) (e_send_ok e).

Definition map_elems (f : Elem -> Elem) (pg : Page) : Page :=
  mkPage (map f (pg_elems pg)) (pg_divs pg) (pg_ids pg) (pg_iframes pg) (pg_texts pg).

(** Activation of an element by a click: a radio input becomes checked
    and unchecks the other radio inputs of its [name]; a checkbox input
    toggles; other elements keep their state. *)
Definition click_effect (el : Elem) (pg : Page) : Page :=
  match e_kind el with
  | RadioInput =>
      map_elems (fun e =>
        if Nat.eqb (e_no e) (e_no el) then with_selected true e
        else match e_kind e with
             | RadioInput => if String.eqb (e_name e) (e_name el)
                             then with_selected false e else e
             | _ => e
             end) pg
  | CheckInput =>
      map_elems (fun e =>
        if Nat.eqb (e_no e) (e_no el) then with_selected (negb (e_selected e)) e else e) pg
  | _ => pg
  end.

Definition activate (el : Elem) : M unit :=
  modify (fun s => set_page (click_effect el (st_page s)) s).

(* ------------------------------------------------------------------ *)
(** ** [SurveyBot._safe_click] *)

(** One driver call that succeeds when [ok] holds, and otherwise raises
    [e]; [stage] is recorded when the call is attempted. *)
Definition driver_call (el : Elem) (stage : nat) (ok : bool) (e : exn) : M unit :=
  emit (EvStage (e_no el) stage) ;;; if ok then ret tt else raise e.

Definition safe_click (el : option Elem) : M bool :=
  match el with
  | None => ret false
  | Some el =>
      try_ (driver_call el 1 (e_click_ok el) WebDriverError ;;; activate el ;;; ret true)
        (fun _ =>
           chains <- gets st_chains ;;
           drv <- gets st_driver ;;
           r2 <- (if chains && drv then
                    try_ (driver_call el 2 (e_chain_ok el) WebDriverError ;;;
                          activate el ;;; ret true)
                         (fun _ => ret false)
                  else ret false) ;;
           if r2 then ret true
           else
             try_ (driver_call el 3 (drv && e_scroll_ok el)
                     (if drv then WebDriverError else AttributeError) ;;;
                   emit (EvSleep f0_05))
                  (fun _ => ret tt) ;;;
             try_ (driver_call el 4 (drv && e_dispatch_ok el)
                     (if drv then WebDriverError else AttributeError) ;;;
                   activate el ;;; ret true)
                  (fun _ => log "[Click]" "Click failed." ;;; ret false))
  end.

(** The click stages recorded in a list of events. *)
Definition stages_of (evs : list event) : list nat :=
  flat_map (fun ev => match ev with EvStage _ k => [k] | _ => [] end) evs.

(* ------------------------------------------------------------------ *)
(** ** [SurveyBot._get_label_text] *)

Definition opt_str (x : option string) : string :=
  match x with Some s => s | None => EmptyString end.

(** [driver.find_elements(By.ID, labid)]: the texts of the elements whose
    id attribute is [labid], in document order. *)
Definition find_by_id (labid : string) : M (list string) :=
  drv <- gets st_driver ;;
  if negb drv then raise AttributeError
  else pg <- gets st_page ;;
       ret (map snd (filter (fun p => String.eqb (fst p) labid) (pg_ids pg))).

(** Each [try] block of the helper yields [Some txt] when it returns. *)
Definition label_stage (found : option string) : M (option string) :=
  try_ (match found with
        | None => raise NoSuchElement
        | Some t => let txt := Py.strip t in
                    ret (if Py.truthy txt then Some txt else None)
        end)
       (fun _ => ret None).

Definition aria_stage (el : Elem) : M (option string) :=
  try_ (let aria := Py.strip (opt_str (e_aria_label el)) in
        ret (if Py.truthy aria then Some aria else None))
       (fun _ => ret None).

Definition labelledby_stage (el : Elem) : M (option string) :=
  try_ (let labid := Py.strip (opt_str (e_aria_labelledby el)) in
        if Py.truthy labid then
          nodes <- find_by_id labid ;;
          match nodes with
          | [] => ret None
          | t :: _ => ret (Some (Py.strip t))
          end
        else ret None)
       (fun _ => ret None).

Definition get_label_text (el : Elem) : M string :=
  r1 <- label_stage (e_anc_label el) ;;
  match r1 with Some t => ret t | None =>
  r2 <- label_stage (e_prec_label el) ;;
  match r2 with Some t => ret t | None =>
  r3 <- aria_stage el ;;
  match r3 with Some t => ret t | None =>
  r4 <- labelledby_stage el ;;
  match r4 with Some t => ret t | None =>
  ret EmptyString
  end end end end.

(** The option text of [_answer_radios]:
    [(o.get_attribute("value") or o.get_attribute("aria-label")
      or self._get_label_text(o) or "").strip()], then [txt or "<opt>"]. *)
Definition radio_opt_text (o : Elem) : M string :=
  raw <- (let v := opt_str (e_value o) in
          if Py.truthy v then ret v
          else let a := opt_str (e_aria_label o) in
               if Py.truthy a then ret a
               else get_label_text o) ;;
  let txt := Py.strip raw in
  ret (if Py.truthy txt then txt else "<opt>"%string).

(** The first non-empty string of a list, or [""]. *)
Definition first_nonempty (l : list string) : string :=
  match find Py.truthy l with Some t => t | None => EmptyString end.

(** A radio input whose clicks succeed, with the given [name], div
    ancestors, [value] attribute and ancestor-label text. *)
Definition radio_el (no : nat) (name : string) (divs : list nat)
    (value anc_label : option string) : Elem :=
  mkElem no RadioInput name divs ("e" ++ str_of_Z (Z.of_nat no))%string false value
    None None anc_label None true true true true true true.

(** A div without id attributes. *)
Definition plain_div (no : nat) : Div :=
  mkDiv no None None ("d" ++ str_of_Z (Z.of_nat no))%string.

(* ------------------------------------------------------------------ *)
(** ** [SurveyBot._detect_captcha] *)

Definition of_res {A} (r : res A) : M A :=
  match r with Ok a => ret a | Raise e => raise e end.

(** [for f in iframes: src = (f.get_attribute("src") or "").lower(); ...] *)
Fixpoint iframe_loop (frames : list (res (option string))) : M bool :=
  match frames with
  | [] => ret false
  | f :: fs =>
      src0 <- of_res f ;;
      let src := Py.lower (opt_str src0) in
      if Py.contains "recaptcha" src || Py.contains "hcaptcha" src
         || Py.contains "geetest" src
      then ret true
      else iframe_loop fs
  end.

(** XPath 1.0 [contains(translate(text(), 'A..Z', 'a..z'), 'captcha')] on
    an element: [text()] converts to the string value of the element's
    first child text node ([""] when it has none); [translate] maps the
    ASCII capitals to small letters. *)
Definition xpath_captcha (texts : list string) : bool :=
  Py.contains "captcha" (Py.lower (hd EmptyString texts)).

Definition detect_captcha : M bool :=
  try_ (pg <- gets st_page ;;
        frames <- of_res (pg_iframes pg) ;;
        hit <- iframe_loop frames ;;
        if hit then ret true
        else elems <- of_res (pg_texts pg) ;;
             ret (match filter xpath_captcha elems with [] => false | _ => true end))
       (fun _ => ret false).

(* ------------------------------------------------------------------ *)
(** ** Page queries used by the handlers *)

Fixpoint mapM {A B} (f : A -> M B) (l : list A) : M (list B) :=
  match l with
  | [] => ret []
  | x :: xs => y <- f x ;; ys <- mapM f xs ;; ret (y :: ys)
  end.

Fixpoint filterM {A} (f : A -> M bool) (l : list A) : M (list A) :=
  match l with
  | [] => ret []
  | x :: xs => b <- f x ;; ys <- filterM f xs ;; ret (if b then x :: ys else ys)
  end.

(** [driver.find_elements(...)] for a set of element kinds. *)
Definition find_kinds (p : kind -> bool) : M (list Elem) :=
  pg <- gets st_page ;; ret (filter (fun e => p (e_kind e)) (pg_elems pg)).

(** [el.find_element(By.XPATH, "ancestor::div[1]")] *)
Definition ancestor_div (el : Elem) : M nat :=
  match e_divs el with [] => raise NoSuchElement | d :: _ => ret d end.

Definition div_of (d : nat) : M Div :=
  pg <- gets st_page ;;
  ret (match find (fun x => Nat.eqb (d_no x) d) (pg_divs pg) with
       | Some x => x
       | None => mkDiv d None None EmptyString
       end).

(** [anc.find_elements(By.CSS_SELECTOR, "input[type=...]")]: the inputs of
    one kind below the div, in document order.  The Python local [anc] is
    [None] while unbound, and then the call raises [NameError]. *)
Definition inputs_under (k : kind) (anc : option nat) : M (list Elem) :=
  match anc with
  | None => raise NameError
  | Some d =>
      pg <- gets st_page ;;
      ret (filter (fun e => match e_kind e, k with
                            | RadioInput, RadioInput | CheckInput, CheckInput =>
                                existsb (Nat.eqb d) (e_divs e)
                            | _, _ => false
                            end) (pg_elems pg))
  end.

Definition is_selected (el : Elem) : M bool := e <- live el ;; ret (e_selected e).

Definition get_value (el : Elem) : M (option string) := e <- live el ;; ret (e_value e).

Definition is_radio (k : kind) : bool :=
  match k with RadioInput | RadioRole => true | _ => false end.
Definition is_checkbox (k : kind) : bool :=
  match k with CheckInput | CheckRole => true | _ => false end.
Definition is_text (k : kind) : bool := match k with TextInput => true | _ => false end.
Definition is_textarea (k : kind) : bool := match k with TextArea => true | _ => false end.

Definition mem (x : string) (seen : list string) : bool := existsb (String.eqb x) seen.

(* ------------------------------------------------------------------ *)
(** ** [SurveyBot._answer_radios] *)

(** [for i, o in enumerate(opts): if opts_text[i].lower() == pick.lower()] *)
Fixpoint match_option (pick : string) (opts : list Elem) (texts : list string) : option Elem :=
  match opts, texts with
  | o :: os, t :: ts =>
      if String.eqb (Py.lower t) (Py.lower pick) then Some o else match_option pick os ts
  | _, _ => None
  end.

(** The loop over [radios] with the [seen] set and the local [anc]. *)
Fixpoint radios_loop (rs : list Elem) (seen : list string) (anc : option nat) : M unit :=
  match rs with
  | [] => ret tt
  | r :: rs' =>
      run <- gets st_running ;;
      if negb run then ret tt else
      ca <- try_ (d <- ancestor_div r ;; dv <- div_of d ;;
                  ret (Py.or_str (d_icid dv) (Py.or_str (d_id dv) (d_hash dv)), Some d))
                 (fun _ => ret (e_hash r, anc)) ;;
      let (cid, anc') := ca in
      if mem cid seen then radios_loop rs' seen anc' else
      let seen' := cid :: seen in
      opts <- try_ (inputs_under RadioInput anc') (fun _ => ret [r]) ;;
      sel <- filterM is_selected opts ;;
      if negb (Nat.eqb (length sel) 0) then radios_loop rs' seen' anc' else
      opts_text <- mapM radio_opt_text opts ;;
      q0 <- get_label_text r ;;
      let question := if Py.truthy q0 then q0 else "question"%string in
      pick <- intelligent_answer (Some question) opts_text ;;
      chosen <- (match match_option pick opts opts_text with
                 | Some o => ret o
                 | None => choice opts
                 end) ;;
      ok <- safe_click (Some chosen) ;;
      (if ok then log "[Radio]" pick else ret tt) ;;;
      paced <- interruptible_sleep ;;
      if negb paced then ret tt else radios_loop rs' seen' anc'
  end.

Definition answer_radios : M unit :=
  radios <- find_kinds is_radio ;;
  match radios with [] => ret tt | _ => radios_loop radios [] None end.

(* ------------------------------------------------------------------ *)
(** ** [SurveyBot._answer_checkboxes] *)

(** [for s in to_select: ...]; false when the handler returns. *)
Fixpoint select_loop (ss : list Elem) : M bool :=
  match ss with
  | [] => ret true
  | x :: ss' =>
      run <- gets st_running ;;
      if negb run then ret false else
      ok <- safe_click (Some x) ;;
      (if ok then
         lab <- get_label_text x ;;
         log "[Checkbox]" (if Py.truthy lab then lab else Py.or_str (e_value x) "<box>")
       else ret tt) ;;;
      paced <- interruptible_sleep ;;
      if negb paced then ret false else select_loop ss'
  end.

Fixpoint boxes_loop (bs : list Elem) (seen : list string) (anc : option nat) : M unit :=
  match bs with
  | [] => ret tt
  | b :: bs' =>
      run <- gets st_running ;;
      if negb run then ret tt else
      ca <- try_ (d <- ancestor_div b ;; dv <- div_of d ;;
                  ret (Py.or_str (d_id dv) (Py.or_str (d_icid dv) (d_hash dv)), Some d))
                 (fun _ => ret (e_hash b, anc)) ;;
      let (cid, anc') := ca in
      if mem cid seen then boxes_loop bs' seen anc' else
      let seen' := cid :: seen in
      group <- try_ (inputs_under CheckInput anc') (fun _ => ret [b]) ;;
      candidates <- filterM (fun g => sel <- is_selected g ;; ret (negb sel)) group ;;
      match candidates with
      | [] => boxes_loop bs' seen' anc'
      | _ =>
          count <- randint 2 (Z.min 5 (Z.of_nat (length candidates))) ;;
          to_select <- sample candidates count ;;
          go_on <- select_loop to_select ;;
          if go_on then boxes_loop bs' seen' anc' else ret tt
      end
  end.

Definition answer_checkboxes : M unit :=
  boxes <- find_kinds is_checkbox ;;
  match boxes with [] => ret tt | _ => boxes_loop boxes [] None end.

(* ------------------------------------------------------------------ *)
(** ** [SurveyBot._answer_texts] and [SurveyBot._answer_textareas]

    The two handlers share their code; they differ in the elements, the
    default question and the log tag. *)

Definition clear_field (el : Elem) : M unit :=
  if e_clear_ok el then
    emit (EvClear (e_no el)) ;;;
    modify (fun s => set_page (map_elems (fun e =>
      if Nat.eqb (e_no e) (e_no el) then with_value (Some EmptyString) e else e) (st_page s)) s)
  else raise WebDriverError.

Definition send_keys (el : Elem) (txt : string) : M unit :=
  if e_send_ok el then
    emit (EvKeys (e_no el) txt) ;;;
    modify (fun s => set_page (map_elems (fun e =>
      if Nat.eqb (e_no e) (e_no el) then with_value (Some (opt_str (e_value e) ++ txt)%string) e
      else e) (st_page s)) s)
  else raise WebDriverError.

(** The [try] body for one field: true means [continue] (no pacing). *)
Definition fill_field (qdefault tag : string) (el : Elem) : M bool :=
  v <- get_value el ;;
  let cur := Py.strip (opt_str v) in
  if Py.truthy cur then ret true else
  q0 <- get_label_text el ;;
  let question := if Py.truthy q0 then q0 else qdefault in
  ans <- intelligent_answer (Some question) [] ;;
  try_ (clear_field el) (fun _ => ret tt) ;;;
  send_keys el ans ;;;
  log tag ans ;;;
  ret false.

Fixpoint fill_loop (qdefault tag : string) (els : list Elem) : M unit :=
  match els with
  | [] => ret tt
  | el :: els' =>
      run <- gets st_running ;;
      if negb run then ret tt else
      skip <- try_ (fill_field qdefault tag el)
                   (fun _ => log "[Error]" "fill error" ;;; ret false) ;;
      if skip then fill_loop qdefault tag els' else
      paced <- interruptible_sleep ;;
      if negb paced then ret tt else fill_loop qdefault tag els'
  end.

Definition answer_texts : M unit :=
  inputs <- find_kinds is_text ;; fill_loop "text" "[Text]" inputs.

Definition answer_textareas : M unit :=
  areas <- find_kinds is_textarea ;; fill_loop "textarea" "[Textarea]" areas.

(** A checkbox input whose clicks succeed, unchecked, below the given divs. *)
Definition check_el (no : nat) (divs : list nat) : Elem :=
  mkElem no CheckInput EmptyString divs ("e" ++ str_of_Z (Z.of_nat no))%string false None
    None None None None true true true true true true.

(** A single-line text input with the given value attribute. *)
Definition text_el (no : nat) (k : kind) (value : option string) : Elem :=
  mkElem no k EmptyString [] ("e" ++ str_of_Z (Z.of_nat no))%string false value
    None None None None true true true true true true.

Definition page_of (els : list Elem) (divs : list Div) : Page :=
  mkPage els divs [] (Ok []) (Ok []).

(** One radio question [q] ("Yes"/"No") whose options sit each in a div
    of their own inside the question's div: [<div><div>Yes</div><div>No</div></div>]. *)
Definition split_radio_page : Page :=
  page_of [radio_el 0 "q" [1; 0]%nat (Some "Yes"%string) None;
           radio_el 1 "q" [2; 0]%nat (Some "No"%string) None]
          [plain_div 0; plain_div 1; plain_div 2].

(** The same question inside one div, already answered "Yes". *)
Definition answered_radio_page : Page :=
  page_of [with_selected true (radio_el 0 "q" [0%nat] (Some "Yes"%string) None);
           radio_el 1 "q" [0%nat] (Some "No"%string) None]
          [plain_div 0].

(* ------------------------------------------------------------------ *)
(** ** Framing of the text handlers

    What a computation may do to the field numbered [n]: the elements
    numbered [n] are unchanged and no [clear()] or [send_keys()] on [n]
    is recorded. *)

Definition untouched (n : nat) (ev : event) : Prop :=
  match ev with
  | EvClear m | EvKeys m _ => m <> n
  | _ => True
  end.

Definition field_of (n : nat) (s : St) : list Elem :=
  filter (fun e => Nat.eqb (e_no e) n) (pg_elems (st_page s)).

Definition frame (n : nat) (s s' : St) : Prop :=
  field_of n s' = field_of n s /\
  exists evs, st_trace s' = st_trace s ++ evs /\ Forall (untouched n) evs.

(** The field numbered [n] is on the page and its value, stripped, is
    non-empty. *)
Definition filled (n : nat) (s : St) : Prop :=
  match find (fun e => Nat.eqb (e_no e) n) (pg_elems (st_page s)) with
  | Some e => Py.truthy (Py.strip (opt_str (e_value e))) = true
  | None => False
  end.

Definition keeps (n : nat) {A} (m : M A) : Prop :=
  forall s, filled n s -> frame n s (snd (m s)).

(* ------------------------------------------------------------------ *)
(** ** [SurveyBot._thread_main]

    The methods the loop calls.  [_answer_selects] and [_click_next_if_any]
    are kept abstract; the others are the handlers above. *)

Record Handlers := mkHandlers {
  h_detect : M bool;        (* self._detect_captcha *)
  h_radios : M unit;        (* self._answer_radios *)
  h_checkboxes : M unit;    (* self._answer_checkboxes *)
  h_texts : M unit;         (* self._answer_texts *)
  h_textareas : M unit;     (* self._answer_textareas *)
  h_selects : M unit;       (* self._answer_selects *)
  h_next : M bool           (* self._click_next_if_any *)
}.

Definition bot_handlers (answer_selects : M unit) (click_next_if_any : M bool) : Handlers :=
  mkHandlers detect_captcha answer_radios answer_checkboxes answer_texts
    answer_textareas answer_selects click_next_if_any.

(** The handlers of one pass in their fixed order; false when one of the
    [if not self.running: continue] tests leaves the pass. *)
Definition handler_chain (H : Handlers) : M bool :=
  h_radios H ;;;
  r1 <- gets st_running ;; if negb r1 then ret false else
  h_checkboxes H ;;;
  r2 <- gets st_running ;; if negb r2 then ret false else
  h_texts H ;;;
  r3 <- gets st_running ;; if negb r3 then ret false else
  h_textareas H ;;;
  r4 <- gets st_running ;; if negb r4 then ret false else
  h_selects H ;;;
  gets st_running.

(** The body of the [try] block of one pass. *)
Definition pass_body (H : Handlers) : M unit :=
  cap <- h_detect H ;;
  if cap then
    log "[Loop]" "Captcha detected - please solve it in browser. Automation paused." ;;;
    modify (set_running false)
  else
    go <- handler_chain H ;;
    if negb go then ret tt else
    clicked <- h_next H ;;
    if clicked then ret tt
    else log "[Loop]" "No next/submit - automation paused for this page." ;;;
         modify (set_running false).

(** One pass with its [except Exception as e] handler. *)
Definition thread_pass (H : Handlers) : M unit :=
  try_ (pass_body H)
       (fun _ => log "[Loop]" "Automation loop error" ;;; modify (set_running false)).

(** The [while self.alive] loop; [fuel] bounds the number of iterations. *)
Fixpoint thread_loop (H : Handlers) (fuel : nat) : M unit :=
  match fuel with
  | O => ret tt
  | S f =>
      alive <- gets st_alive ;;
      if negb alive then ret tt else
      run <- gets st_running ;;
      if negb run then emit (EvSleep f0_12) ;;; thread_loop H f
      else thread_pass H ;;; thread_loop H f
  end.

Definition thread_main (H : Handlers) (fuel : nat) : M unit :=
  log "[Loop]" "Thread ready." ;;;
  thread_loop H fuel ;;;
  log "[Loop]" "Thread stopped (alive=False).".

(** A computation that never writes [self.alive]. *)
Definition keeps_alive {A} (m : M A) : Prop :=
  forall s, st_alive (snd (m s)) = st_alive s.

(** [m] returns normally from [s] in the Paused state: not running, and
    alive as before. *)
Definition ends_paused (m : M unit) (s : St) : Prop :=
  exists s', m s = (Ok tt, s') /\ st_running s' = false /\ st_alive s' = st_alive s.

(* ------------------------------------------------------------------ *)
(** ** [SurveyBot._answer_selects]

    The [<select>] elements are given with their options: each option is
    an element (its [value] attribute in [e_value]) with its [.text].
    [find_elements] on a select may raise. *)

Record Select := mkSelect {
  sel_el : Elem;                              (* the select element itself *)
  sel_multiple : option string;               (* sel.get_attribute("multiple") *)
  sel_options : res (list (Elem * string))    (* sel.find_elements(By.TAG_NAME, "option") *)
}.

(** [(o.get_attribute("value") or o.text or "").strip()]; the filter
    [(o.get_attribute("value") or o.text).strip() != ""] tests the same
    string, since [o.text] is a string. *)
Definition option_label (o : Elem * string) : string :=
  Py.strip (Py.or_str (e_value (fst o)) (snd o)).

Definition select_candidates (opts : list (Elem * string)) : list ((Elem * string) * string) :=
  map (fun o => (o, option_label o)) (filter (fun o => Py.truthy (option_label o)) opts).

(** [el.text.strip() or el.get_attribute('value')] in the log lines. *)
Definition option_log_text (o : Elem * string) : string :=
  let t := Py.strip (snd o) in
  if Py.truthy t then t else match e_value (fst o) with Some v => v | None => "None"%string end.

(** How one iteration of a [for] loop body ends: [continue] (skipping the
    pacing after the [try]), [return], or falling through to the pacing. *)
Inductive flow := Continue | Return | Fall.

(** [for el in chosen:] of a multiple select. *)
Fixpoint multi_loop (chosen : list (Elem * string)) : M flow :=
  match chosen with
  | [] => ret Fall
  | o :: os =>
      run <- gets st_running ;;
      if negb run then ret Return else
      safe_click (Some (fst o)) ;;;
      log "[Multi-Select]" (option_log_text o) ;;;
      paced <- interruptible_sleep ;;
      if negb paced then ret Return else multi_loop os
  end.

(** The [try] body for one select. *)
Definition select_body (sel : Select) : M flow :=
  opts <- of_res (sel_options sel) ;;
  let candidates := select_candidates opts in
  match candidates with
  | [] => ret Continue
  | _ =>
      let vals := map snd candidates in
      q0 <- get_label_text (sel_el sel) ;;
      let question := if Py.truthy q0 then q0 else "select"%string in
      if Py.truthy (opt_str (sel_multiple sel)) then
        count <- randint 2 (Z.min 5 (Z.of_nat (length candidates))) ;;
        chosen <- sample (map fst candidates) count ;;
        multi_loop chosen
      else
        pick <- intelligent_answer (Some question) vals ;;
        chosen_el <- (match find (fun c => String.eqb (Py.lower (snd c)) (Py.lower pick))
                                 candidates with
                      | Some c => ret (fst c)
                      | None => choice (map fst candidates)
                      end) ;;
        safe_click (Some (fst chosen_el)) ;;;
        log "[Select]" (option_log_text chosen_el) ;;;
        ret Fall
  end.

Fixpoint selects_loop (sels : list Select) : M unit :=
  match sels with
  | [] => ret tt
  | sel :: sels' =>
      run <- gets st_running ;;
      if negb run then ret tt else
      fl <- try_ (select_body sel) (fun _ => log "[Error]" "Select error" ;;; ret Fall) ;;
      match fl with
      | Continue => selects_loop sels'
      | Return => ret tt
      | Fall =>
          paced <- interruptible_sleep ;;
          if negb paced then ret tt else selects_loop sels'
      end
  end.

(** [selects = self.driver.find_elements(By.TAG_NAME, "select")] is
    outside any [try]. *)
Definition answer_selects (sels : res (list Select)) : M unit :=
  selects <- of_res sels ;; selects_loop selects.

(* ------------------------------------------------------------------ *)
(** ** [SurveyBot._click_next_if_any] *)

Definition NEXT_BUTTON_TEXTS : list string :=
  ["next"; "submit"; "continue"; "enter"; "go"; "ok"; "agree"; "confirm"; "send";
   "complete"; "finish"; "proceed"; "advance"]%string.

(** XPath [normalize-space]: leading and trailing whitespace removed and
    inner runs of whitespace (space, tab, CR, LF) replaced by one space. *)
Definition xml_space (c : ascii) : bool :=
  match nat_of_ascii c with 32 | 9 | 10 | 13 => true | _ => false end%nat.

Fixpoint norm_loop (s : string) (emitted pending : bool) : string :=
  match s with
  | EmptyString => EmptyString
  | String c s' =>
      if xml_space c then norm_loop s' emitted emitted
      else ((if pending then " " else "") ++ String c (norm_loop s' true false))%string
  end.

Definition normalize_space (s : string) : string := norm_loop s false false.

(** The page as the next-button search sees it: the [<button>] elements
    with their string value, the [<input type='submit'>] elements (their
    [value] attribute in [e_value]), and the forms with their buttons and
    the buttons' [.text].  Each [find_elements] may raise. *)
Record NextPage := mkNextPage {
  np_buttons : res (list (Elem * string));
  np_submits : res (list Elem);
  np_forms : res (list (res (list (Elem * string))))
}.

(** [//button[contains(translate(normalize-space(.), 'A..Z', 'a..z'), t)]] *)
Definition button_query (np : NextPage) (t : string) : M (list Elem) :=
  bs <- of_res (np_buttons np) ;;
  ret (map fst (filter (fun b => Py.contains t (Py.lower (normalize_space (snd b)))) bs)).

(** [//input[@type='submit' and contains(translate(@value, 'A..Z', 'a..z'), t)]] *)
Definition submit_query (np : NextPage) (t : string) : M (list Elem) :=
  ss <- of_res (np_submits np) ;;
  ret (filter (fun b => Py.contains t (Py.lower (opt_str (e_value b)))) ss).

(** [for btn in btns: if self._safe_click(btn): self.log(msg); return True] *)
Fixpoint click_first (msg : string) (btns : list Elem) : M bool :=
  match btns with
  | [] => ret false
  | b :: bs =>
      ok <- safe_click (Some b) ;;
      if ok then log "[Next]" msg ;;; ret true else click_first msg bs
  end.

(** [for t in NEXT_BUTTON_TEXTS: btns = query(t); ...] *)
Fixpoint per_keyword (query : string -> M (list Elem)) (msg : string) (ts : list string) : M bool :=
  match ts with
  | [] => ret false
  | t :: ts' =>
      btns <- query t ;;
      c <- click_first msg btns ;;
      if c then ret true else per_keyword query msg ts'
  end.

(** [for b in sub: if b.text and any(x in b.text.lower() ...)] *)
Fixpoint form_buttons_loop (bs : list (Elem * string)) : M bool :=
  match bs with
  | [] => ret false
  | b :: bs' =>
      if Py.truthy (snd b)
         && existsb (fun x => Py.contains x (Py.lower (snd b))) NEXT_BUTTON_TEXTS
      then ok <- safe_click (Some (fst b)) ;;
           if ok then log "[Next]" "Clicked Next (form button)" ;;; ret true
           else form_buttons_loop bs'
      else form_buttons_loop bs'
  end.

Fixpoint forms_loop (fs : list (res (list (Elem * string)))) : M bool :=
  match fs with
  | [] => ret false
  | f :: fs' =>
      sub <- of_res f ;;
      c <- form_buttons_loop sub ;;
      if c then ret true else forms_loop fs'
  end.

Definition click_next_if_any (np : NextPage) : M bool :=
  try_ (c1 <- per_keyword (button_query np) "Clicked Next/Submit" NEXT_BUTTON_TEXTS ;;
        if c1 then ret true else
        c2 <- per_keyword (submit_query np) "Clicked Submit" NEXT_BUTTON_TEXTS ;;
        if c2 then ret true else
        try_ (fs <- of_res (np_forms np) ;; forms_loop fs) (fun _ => ret false))
       (fun _ => log "[Error]" "Next button search error" ;;; ret false).

(* ------------------------------------------------------------------ *)
(** ** [SurveyGUI.profiles_data] and [SurveyGUI.save_profile] *)

Record ProfileData := mkProfileData {
  pd_desc : string;
  pd_text : list string;
  pd_textarea : list string
}.

Definition profiles_data : list (string * ProfileData) :=
  [("Default"%string, mkProfileData "Balanced responses. Risk: Low."%string
      PRESET_WORDS TEXTAREA_SENTENCES);
   ("Conservative"%string, mkProfileData "Cautious approach. Risk: Very Low."%string
      ["No"; "Maybe"]%string ["No comment."]%string);
   ("Bold"%string, mkProfileData "Fast/aggressive responses. Risk: Medium."%string
      ["Yes"; "Absolutely"]%string ["Strongly agree."]%string)].

(** [self.profiles_data[p]]: [None] is the [KeyError] of a missing name. *)
Fixpoint lookup_profile (p : string) (l : list (string * ProfileData)) : option ProfileData :=
  match l with
  | [] => None
  | (k, d) :: l' => if String.eqb k p then Some d else lookup_profile p l'
  end.

(** The pools of the profile [save_profile] gives the bot
    ([pd.get("text", PRESET_WORDS[:])], [pd.get("textarea", ...)]; both
    keys are present in every entry). *)
Definition save_profile (p : string) : option Profile :=
  match lookup_profile p profiles_data with
  | Some pd => Some (mkProfile (Some (pd_text pd)) (Some (pd_textarea pd)))
  | None => None
  end.

(* ------------------------------------------------------------------ *)
(** ** The worker lifecycle: [start], [pause], [stop_and_close] and the
    control of [_thread_main]

    Each worker thread is at the [while self.alive] test, inside a pass,
    or finished.  [join(timeout=0.4)] does not wait for a worker that is
    inside a pass longer than the timeout, so it changes nothing. *)

Inductive wphase := WTest | WPass | WDone.

Record Life := mkLife {
  lf_alive : bool;
  lf_running : bool;
  lf_driver : bool;             (* self.driver is not None *)
  lf_workers : list wphase;     (* every thread started on _thread_main *)
  lf_log : list string
}.

Definition life_start (l : Life) : Life :=
  if negb (lf_alive l) then
    mkLife true true (lf_driver l) (lf_workers l ++ [WTest])
      (lf_log l ++ ["Automation thread started."%string])
  else
    mkLife (lf_alive l) true (lf_driver l) (lf_workers l)
      (lf_log l ++ ["Automation resumed."%string]).

Definition life_pause (l : Life) : Life :=
  mkLife (lf_alive l) false (lf_driver l) (lf_workers l) (lf_log l ++ ["Paused."%string]).

(** [driver.quit()] errors are swallowed; the driver is dropped either way. *)
Definition life_stop_and_close (l : Life) : Life :=
  if lf_driver l then mkLife false false false (lf_workers l) (lf_log l ++ ["Driver closed."%string])
  else mkLife false false false (lf_workers l) (lf_log l).

(** The list with position [i] replaced by [x] (unchanged out of range). *)
Fixpoint set_nth {A} (i : nat) (x : A) (l : list A) : list A :=
  match l, i with
  | [], _ => []
  | _ :: l', O => x :: l'
  | y :: l', S i' => y :: set_nth i' x l'
  end.

Definition set_worker (i : nat) (w : wphase) (l : Life) : Life :=
  mkLife (lf_alive l) (lf_running l) (lf_driver l) (set_nth i w (lf_workers l)) (lf_log l).

(** The actors of one step: an operator action on the bot, or worker [i]. *)
Inductive life_label := Start | Pause | Stop | Worker (i : nat).

(** One step of the system.  Worker [i] runs [_thread_main]: at the loop
    test it finishes when [alive] is false and otherwise enters a pass when
    [running] is true (it idles while [running] is false); a pass ends with
    [running] as it was or set to false (challenge, no next button, error). *)
Inductive life_step : life_label -> Life -> Life -> Prop :=
| LS_start l : life_step Start l (life_start l)
| LS_pause l : life_step Pause l (life_pause l)
| LS_stop l : life_step Stop l (life_stop_and_close l)
| LS_exit l i : nth_error (lf_workers l) i = Some WTest -> lf_alive l = false ->
    life_step (Worker i) l (set_worker i WDone l)
| LS_enter l i : nth_error (lf_workers l) i = Some WTest -> lf_alive l = true ->
    lf_running l = true -> life_step (Worker i) l (set_worker i WPass l)
| LS_pass_end l i : nth_error (lf_workers l) i = Some WPass ->
    life_step (Worker i) l (set_worker i WTest l)
| LS_pass_pause l i : nth_error (lf_workers l) i = Some WPass ->
    life_step (Worker i) l
      (mkLife (lf_alive l) false (lf_driver l) (set_nth i WTest (lf_workers l)) (lf_log l)).

Inductive life_run : list life_label -> Life -> Life -> Prop :=
| LR_nil l : life_run [] l l
| LR_cons a As l1 l2 l3 : life_step a l1 l2 -> life_run As l2 l3 -> life_run (a :: As) l1 l3.

(** [SurveyBot.__init__]: not alive, not running, no driver, no thread. *)
Definition life_init : Life := mkLife false false false [] [].

(** The workers that have not finished. *)
Definition live_workers (l : Life) : nat :=
  length (filter (fun w => match w with WDone => false | _ => true end) (lf_workers l)).

Definition in_pass (l : Life) : nat := length (filter (fun w => match w with WPass => true | _ => false end) (lf_workers l)).

Definition bold_profile : Profile :=
  mkProfile (Some ["Yes"; "Absolutely"]%string) (Some ["Strongly agree."]%string).

Definition unreadable_frame_page : Page :=
  mkPage [] [] []
    (Ok [Raise WebDriverError; Ok (Some "https://www.google.com/recaptcha/api2/anchor"%string)])
    (Ok [["Please complete the CAPTCHA"%string]]).

Definition stale_anc_page : Page :=
  page_of [with_selected true (radio_el 0 "q" [0%nat] (Some "Yes"%string) None);
           radio_el 1 "r" [] (Some "Maybe"%string) None]
          [plain_div 0].

(* ------------------------------------------------------------------ *)
(** ** What a computation records *)

(** An event that is a click attempt on an element whose number satisfies
    [target], or an event that is not a click, [clear()] or [send_keys()]. *)
Definition clicks_only (target : nat -> Prop) (ev : event) : Prop :=
  match ev with
  | EvStage n _ => target n
  | EvClear _ | EvKeys _ _ => False
  | _ => True
  end.

(** From any state, [m] only appends events satisfying [P] to the trace,
    and a value it returns satisfies [Q]. *)
Definition emits {A} (P : event -> Prop) (Q : A -> Prop) (m : M A) : Prop :=
  forall s, exists evs, st_trace (snd (m s)) = st_trace s ++ evs /\ Forall P evs /\
    (forall a, fst (m s) = Ok a -> Q a).

(** Computations that record nothing. *)
Definition quiet {A} (m : M A) : Prop := emits (fun _ => False) (fun _ => True) m.

(** The element numbers of the options, with non-blank label, of the
    given selects. *)
Definition option_clicked (sels : list Select) (n : nat) : Prop :=
  exists sel opts o, In sel sels /\ sel_options sel = Ok opts /\ In o opts /\
    Py.truthy (option_label o) = true /\ e_no (fst o) = n.

(** The element numbers [_click_next_if_any] may click: buttons, submit
    inputs and form buttons that match a keyword in its three searches. *)
Definition next_target (np : NextPage) (n : nat) : Prop :=
  (exists bs b t, np_buttons np = Ok bs /\ In b bs /\ In t NEXT_BUTTON_TEXTS /\
     Py.contains t (Py.lower (normalize_space (snd b))) = true /\ e_no (fst b) = n) \/
  (exists ss b t, np_submits np = Ok ss /\ In b ss /\ In t NEXT_BUTTON_TEXTS /\
     Py.contains t (Py.lower (opt_str (e_value b))) = true /\ e_no b = n) \/
  (exists fs sub b, np_forms np = Ok fs /\ In (Ok sub) fs /\ In b sub /\
     Py.truthy (snd b) = true /\
     existsb (fun x => Py.contains x (Py.lower (snd b))) NEXT_BUTTON_TEXTS = true /\
     e_no (fst b) = n).

(** A select whose options have blank labels, and a multiple select with
    one option of non-blank label. *)
Definition blank_select : Select :=
  mkSelect (text_el 10 OtherKind None) None
    (Ok [(text_el 11 OtherKind (Some ""%string), "  "%string);
         (text_el 12 OtherKind None, ""%string)]).

Definition multi_single_select : Select :=
  mkSelect (text_el 20 OtherKind None) (Some "true"%string)
    (Ok [(text_el 21 OtherKind (Some "a"%string), "A"%string);
         (text_el 22 OtherKind None, " "%string)]).

(** A button whose clicks succeed. *)
Definition button_el (n : nat) : Elem := text_el n OtherKind None.

(** Next-button searches: nothing matches a keyword (and the buttons of one
    form cannot be read); a "Continue" button before a "Submit" button. *)
Definition no_next_page : NextPage :=
  mkNextPage (Ok [(button_el 1, "Back"%string)])
    (Ok [with_value (Some "Search"%string) (button_el 2)])
    (Ok [Ok [(button_el 3, "Cancel"%string)]; Raise WebDriverError]).

Definition priority_page : NextPage :=
  mkNextPage (Ok [(button_el 1, "Continue"%string); (button_el 2, " Submit  answers "%string)])
    (Ok []) (Ok []).

(** The group id and the [anc] that one iteration of [radios_loop]
    computes for the radio [r] from the page's divs:
    [anc.get_attribute("data-interceptor-id") or anc.get_attribute("id")
    or str(hash(anc))] for the nearest div [anc], or [str(hash(r))] with
    the old [anc] when [r] has no div ancestor. *)
Definition group_id (divs : list Div) (r : Elem) (anc : option nat) : string * option nat :=
  match e_divs r with
  | [] => (e_hash r, anc)
  | d :: _ =>
      let dv := match find (fun x => Nat.eqb (d_no x) d) divs with
                | Some x => x
                | None => mkDiv d None None EmptyString
                end in
      (Py.or_str (d_icid dv) (Py.or_str (d_id dv) (d_hash dv)), Some d)
  end.

(** The group ids of the radios of a pass, in order, as the loop threads
    [anc] from one iteration to the next. *)
Fixpoint pass_ids (divs : list Div) (rs : list Elem) (anc : option nat) : list string :=
  match rs with
  | [] => []
  | r :: rs' => let (c, anc') := group_id divs r anc in c :: pass_ids divs rs' anc'
  end.

(** The options of the group: the radio inputs below the div [anc], or
    [[r]] when [anc] is unbound. *)
Definition group_opts (pg : Page) (r : Elem) (anc : option nat) : list Elem :=
  match anc with
  | None => [r]
  | Some d => filter (fun e => match e_kind e with
                               | RadioInput => existsb (Nat.eqb d) (e_divs e)
                               | _ => false
                               end) (pg_elems pg)
  end.

(** A commit is a first-stage click attempt ([el.click()]); every call of
    [_safe_click] on an element makes exactly one. *)
Definition is_commit (ev : event) : bool :=
  match ev with EvStage _ 1 => true | _ => false end.

Definition commits (evs : list event) : nat := length (filter is_commit evs).

(** The distinct ids of a list that are not in [seen]. *)
Definition fresh_ids (seen ids : list string) : list string :=
  nodup string_dec (filter (fun c => negb (mem c seen)) ids).

(** From any state whose page has the divs [divs], [m] appends events with
    at most [k] commits, keeps the divs, and a value it returns satisfies
    [Q]. *)
Definition commits_le {A} (divs : list Div) (k : nat) (Q : A -> Prop) (m : M A) : Prop :=
  forall s, pg_divs (st_page s) = divs ->
  exists evs, st_trace (snd (m s)) = st_trace s ++ evs /\ (commits evs <= k)%nat /\
    pg_divs (st_page (snd (m s))) = divs /\ (forall a, fst (m s) = Ok a -> Q a).

(** [m] changes nothing of the state but the draws left to the random
    generator. *)
Definition draws_only {A} (m : M A) : Prop := forall s, exists r, snd (m s) = set_rng r s.

(** The invariant of the lifecycle without [stop_and_close]: at most one
    worker that has not finished, and none while [alive] is false. *)
Definition life_inv (l : Life) : Prop :=
  (live_workers l <= 1)%nat /\ (lf_alive l = false -> live_workers l = 0%nat).

(* ================================================================== *)
(** * Properties *)

(** Branch selection of [intelligent_answer] is the classifier of the
    specification followed by the strategy's answer path. *)
Lemma intelligent_answer_dispatch (qtext : option string) (options : list string) :
  intelligent_answer qtext options =
  strategy_answer
    (spec_classify (match qtext with Some t => t | None => EmptyString end) options)
    options.
Proof.
  unfold intelligent_answer, spec_classify, any_kw.
  destruct options as [|o os]; cbn [length Nat.eqb negb andb];
    repeat match goal with |- context [existsb ?f ?l] => destruct (existsb f l) end;
    reflexivity.
Qed.

(** ** C4 *)

(** Claim C4: the question classification inside [intelligent_answer] is a
    total function of the lower-cased text with precedence yes/no, then
    numeric, then favorite (only with options), then opinion, else free
    form; in particular a text with a yes/no cue takes the yes/no path
    whatever other cues it contains. *)
Theorem intelligent_answer_classification (qtext : option string) (options : list string) :
  let t := match qtext with Some t => t | None => EmptyString end in
  intelligent_answer qtext options = strategy_answer (spec_classify t options) options /\
  ((exists k, In k KW_yesno /\ Py.contains k (Py.lower t) = true) ->
   intelligent_answer qtext options = ans_yesno) /\
  ((forall kws, In kws [KW_yesno; KW_numbers; KW_favorite; KW_opinion] ->
     forall k, In k kws -> Py.contains k (Py.lower t) = false) ->
   spec_classify t options = Freeform).
Proof.
  intro t. split; [|split].
  - apply intelligent_answer_dispatch.
  - intros [k [Hin Hk]]. rewrite intelligent_answer_dispatch.
    unfold spec_classify. fold t.
    assert (existsb (fun k => Py.contains k (Py.lower t)) KW_yesno = true) as ->
      by (apply existsb_exists; eauto).
    reflexivity.
  - intros Hnone. unfold spec_classify.
    assert (Hno : forall kws, In kws [KW_yesno; KW_numbers; KW_favorite; KW_opinion] ->
              existsb (fun k => Py.contains k (Py.lower t)) kws = false).
    { intros kws Hk. apply not_true_iff_false. intro He.
      apply existsb_exists in He as [k [Hin Hc]].
      rewrite (Hnone kws Hk k Hin) in Hc. discriminate. }
    rewrite (Hno KW_yesno), (Hno KW_numbers), (Hno KW_favorite), (Hno KW_opinion)
      by (simpl; tauto).
    rewrite andb_false_r. reflexivity.
Qed.

(** ** C2 *)

Lemma choice_res {A} (xs : list A) (s : St) :
  (forall e s', choice xs s = (Raise e, s') -> e = IndexError) /\
  ((exists e s', choice xs s = (Raise e, s')) <-> xs = []).
Proof.
  destruct xs as [|x xs]; simpl.
  - split; [intros e s' H; inversion H; auto |].
    split; [reflexivity | intros _; exists IndexError, s; reflexivity].
  - unfold bind, randbelow, bind, draw, ret.
    destruct (st_rng s); simpl; split;
      try (intros e s' H; discriminate);
      split; try (intros (e & s' & H); discriminate); discriminate.
Qed.

Ltac no_raise :=
  split; [intros ? ? Hr; inversion Hr | split; [intros (? & ? & Hr); inversion Hr | tauto]].

(** Claim C2 (as amended): [intelligent_answer] never signals a dedicated
    empty-pool condition; the only exception it raises is [IndexError]
    (from [random.choice] on an empty list), and it raises exactly when
    the branch taken draws from an empty list: the opinion branch, which
    ignores [options], when the profile list picked by the first random
    draw ([textarea] if below 0.5, else [text]) is empty, or the final
    fallback when [options] and the profile's [text] list are both empty.
    The yes/no, numeric and favorite branches never fail. *)
Theorem intelligent_answer_failure (qtext : option string) (options : list string) (s : St) :
  let t := match qtext with Some t => t | None => EmptyString end in
  let pr := st_profile s in
  (forall e s', intelligent_answer qtext options s = (Raise e, s') -> e = IndexError) /\
  ((exists e s', intelligent_answer qtext options s = (Raise e, s')) <->
   match spec_classify t options with
   | Opinion =>
       (if Qle_bool (1 # 2) (random_of (hd 0 (st_rng s)))
        then profile_text pr else profile_textarea pr) = []
   | Freeform => options = [] /\ profile_text pr = []
   | _ => False
   end).
Proof.
  intros t pr. rewrite intelligent_answer_dispatch. fold t.
  destruct (spec_classify t options) eqn:Hc; simpl.
  - unfold ans_yesno, choices_yes_no, random, bind, draw, ret.
    destruct (st_rng s); simpl; no_raise.
  - unfold ans_numeric, randint, randrange. simpl.
    unfold bind, randbelow, bind, draw, ret.
    destruct (st_rng s); no_raise.
  - assert (Hne : options <> []).
    { intros ->. unfold spec_classify in Hc. cbn [length Nat.eqb negb andb] in Hc.
      repeat match type of Hc with context [existsb ?f ?l] => destruct (existsb f l) end;
        discriminate. }
    unfold ans_favorite. destruct (choice_res options s) as [H1 H2].
    split; [exact H1|]. rewrite H2. tauto.
  - unfold ans_opinion, random, bind, draw, gets, ret.
    destruct (st_rng s) as [|d ds]; simpl;
      [| destruct (Qle_bool (1 # 2) (random_of d))]; apply choice_res.
  - unfold ans_fallback. destruct options as [|o os].
    + unfold bind, gets. destruct (choice_res (profile_text (st_profile s)) s) as [H1 H2].
      split; [exact H1|]. rewrite H2. tauto.
    + unfold try_. destruct (choice (o :: os) s) as [r s'] eqn:Hch.
      destruct r as [a|e].
      * split; [intros ? ? H; inversion H | split;
          [intros (? & ? & H); inversion H | intros [H _]; discriminate]].
      * exfalso. destruct (choice_res (o :: os) s) as [_ [H _]].
        assert (o :: os = []) by (apply H; eauto). discriminate.
Qed.

(** Counterexample to claim C2 as stated: an opinion question asked with
    a non-empty option list, under a profile whose [textarea] list is empty
    and a first draw below 0.5, raises [IndexError], although the options
    are non-empty. *)
Lemma intelligent_answer_opinion_ignores_options :
  fst (intelligent_answer (Some "Any comments?"%string) ["A"%string]
         (bot_state empty_page (mkProfile (Some PRESET_WORDS) (Some [])) [0]))
  = Raise IndexError.
Proof. vm_compute. reflexivity. Qed.

(** ** C8 *)

Lemma iter_add {A} (f : A -> A) (m n : nat) (x : A) :
  Nat.iter (m + n) f x = Nat.iter m f (Nat.iter n f x).
Proof. induction m as [|m IH]; simpl; [reflexivity | now rewrite IH]. Qed.

Lemma iter_returned total running k b ds :
  Nat.iter k (sleep_step total running) (Returned b ds) = Returned b ds.
Proof. induction k as [|k IH]; simpl; [reflexivity | now rewrite IH]. Qed.

(** The doubling iteration is [p] plain steps. *)
Lemma sleep_steps_iter total running (p : positive) :
  forall st, sleep_steps p total running st = Nat.iter (Pos.to_nat p) (sleep_step total running) st.
Proof.
  induction p as [q IH|q IH|]; intros st; destruct st as [sl n ds|b ds];
    try (rewrite iter_returned; reflexivity).
  - change (sleep_steps (xI q) total running (Looping sl n ds)) with
      (sleep_step total running
         (sleep_steps q total running (sleep_steps q total running (Looping sl n ds)))).
    rewrite !IH, Pos2Nat.inj_xI, <- iter_add.
    replace (S (2 * Pos.to_nat q)) with (1 + (Pos.to_nat q + Pos.to_nat q))%nat by lia.
    reflexivity.
  - change (sleep_steps (xO q) total running (Looping sl n ds)) with
      (sleep_steps q total running (sleep_steps q total running (Looping sl n ds))).
    rewrite !IH, Pos2Nat.inj_xO, <- iter_add.
    f_equal. lia.
  - reflexivity.
Qed.

Definition sleep_ds (st : sleep_state) : list float :=
  match st with Looping _ _ ds => ds | Returned _ ds => ds end.

(** What a run of the loop has done after [k] steps. *)
Definition sleep_inv (total : float) (running : nat -> bool) (k : nat) (st : sleep_state) : Prop :=
  (forall i, (i < length (sleep_ds st))%nat ->
     flt (slept_after i) total = true /\ running i = true /\
     nth_error (sleep_ds st) i = Some (py_min resolution (fsub total (slept_after i)))) /\
  match st with
  | Looping slept n ds => slept = slept_after n /\ n = k /\ length ds = n
  | Returned true ds => flt (slept_after (length ds)) total = false
  | Returned false ds => flt (slept_after (length ds)) total = true /\ running (length ds) = false
  end.

Lemma sleep_inv_step total running k st :
  sleep_inv total running k st -> sleep_inv total running (S k) (sleep_step total running st).
Proof.
  intros [Hpre Hst]. destruct st as [sl n ds|[] ds]; [|exact (conj Hpre Hst) ..].
  destruct Hst as (-> & -> & Hlen). cbn [sleep_ds] in Hpre. unfold sleep_step.
  destruct (flt (slept_after k) total) eqn:Hg; [destruct (running k) eqn:Hr|]; cbn [negb].
  - split.
    + cbn [sleep_ds]. intros i Hi. rewrite length_app in Hi. cbn [length] in Hi.
      destruct (Nat.lt_ge_cases i (length ds)) as [Hlt|Hge].
      * rewrite nth_error_app1 by assumption. now apply Hpre.
      * assert (i = k) by lia. subst i. rewrite nth_error_app2 by lia.
        rewrite Hlen, Nat.sub_diag. auto.
    + split; [reflexivity|]. rewrite length_app. simpl. lia.
  - split; [exact Hpre|]. rewrite Hlen. auto.
  - split; [exact Hpre|]. now rewrite Hlen.
Qed.

Lemma sleep_inv_iter total running k :
  sleep_inv total running k (Nat.iter k (sleep_step total running) (Looping f0_0 0 [])).
Proof.
  induction k as [|k IH].
  - split; [simpl; intros; lia | repeat split].
  - simpl. now apply sleep_inv_step.
Qed.

(** Claim C8 (as amended): [_interruptible_sleep] computes
    [total = uniform(min, max) + uniform(0, 0.4)] in floats from the delay
    window.  With [slept_after i] the float sum of [i] slices, slice [i]
    happens only when [slept_after i < total] and the read of [running]
    before it saw true, and it sleeps [min(0.1, total - slept_after i)].
    The result is true only when the guard fails ([slept >= total] or
    [total] is NaN), and false only right after a read of [running] that
    saw false with no slice after it (or when the run is still going after
    [sleep_fuel] slices).  With [0 < total] and [running] false at the
    first read it returns false having slept nothing.  The slice count is
    that of the float sums: [total = 1.0] takes 11 slices, not 10. *)
Theorem interruptible_sleep_pacing (s : St) (total : float) (running : nat -> bool) :
  fst (rand_delay s) =
    Ok (fadd (fadd (st_dmin s)
                   (fmul (fsub (st_dmax s) (st_dmin s)) (frandom_of (nth 0 (st_rng s) 0%Z))))
             (fadd f0_0 (fmul (fsub f0_4 f0_0) (frandom_of (nth 1 (st_rng s) 0%Z))))) /\
  (let (b, ds) := interruptible_sleep_for total running in
   (forall i, (i < length ds)%nat ->
      flt (slept_after i) total = true /\ running i = true /\
      nth_error ds i = Some (py_min resolution (fsub total (slept_after i)))) /\
   (b = true -> flt (slept_after (length ds)) total = false) /\
   (b = false ->
      (flt (slept_after (length ds)) total = true /\ running (length ds) = false) \/
      length ds = Pos.to_nat sleep_fuel) /\
   (flt f0_0 total = true -> running 0%nat = false -> b = false /\ ds = [])) /\
  interruptible_sleep_for f1_0 (fun _ => true) =
    (true, repeat resolution 10 ++ [fsub f1_0 (slept_after 10)]).
Proof.
  split.
  { unfold rand_delay, uniform, frandom, bind, gets, draw, ret.
    destruct s as [pg run al dr ch dmin dmax pr rng tr]; simpl.
    destruct rng as [|d0 [|d1 r]]; reflexivity. }
  split; [|vm_compute; reflexivity].
  unfold interruptible_sleep_for. rewrite sleep_steps_iter.
  pose proof (sleep_inv_iter total running (Pos.to_nat sleep_fuel)) as [Hpre Hst].
  assert (Hfirst : flt f0_0 total = true -> running 0%nat = false ->
    Nat.iter (Pos.to_nat sleep_fuel) (sleep_step total running) (Looping f0_0 0 [])
    = Returned false []).
  { intros Hg Hr. destruct (Pos2Nat.is_succ sleep_fuel) as [k ->].
    rewrite Nat.iter_succ_r. unfold sleep_step at 2. rewrite Hg, Hr. apply iter_returned. }
  destruct (Nat.iter _ _ _) as [sl n ds|[] ds] eqn:E; cbn [sleep_ds] in Hpre;
    cbv beta iota in Hst.
  - destruct Hst as (_ & -> & Hlen). split; [exact Hpre|].
    split; [discriminate|]. split; [intros _; right; exact Hlen|].
    intros Hg Hr. discriminate (Hfirst Hg Hr).
  - split; [exact Hpre|]. split; [intros _; exact Hst|]. split; [discriminate|].
    intros Hg Hr. discriminate (Hfirst Hg Hr).
  - split; [exact Hpre|]. split; [discriminate|]. split; [intros _; left; exact Hst|].
    intros Hg Hr. injection (Hfirst Hg Hr) as ->. auto.
Qed.

(** Counterexample to claim C8 as stated: with the delay window [0, 0]
    and a zero jitter draw the duration is 0, and [_interruptible_sleep]
    returns true although [running] is already false. *)
Lemma interruptible_sleep_zero_duration :
  fst (interruptible_sleep
         (mkSt empty_page false true true true f0_0 f0_0 default_profile [0; 0] []))
  = Ok true.
Proof. vm_compute. reflexivity. Qed.

(** ** C7 *)

(** Claim C7: [_safe_click] never raises, whatever the element (also
    [None]) and whether the driver or [ActionChains] is available.  It
    tries the direct click (stage 1), then the pointer-path click (stage 2,
    only when [ActionChains] and the driver exist), then scrolling and the
    synthetic event dispatch (stages 3 and 4); it stops at the first stage
    that succeeds, and it returns false exactly when the element is [None]
    or the direct click, the pointer-path click and the dispatch all fail. *)
Theorem safe_click_ladder (el : option Elem) (s : St) :
  let (r, s') := safe_click el s in
  exists b evs,
    r = Ok b /\ st_trace s' = st_trace s ++ evs /\
    stages_of evs =
      match el with
      | None => []
      | Some e =>
          if e_click_ok e then [1%nat]
          else if st_chains s && st_driver s then
                 (if e_chain_ok e then [1; 2]%nat else [1; 2; 3; 4]%nat)
               else [1; 3; 4]%nat
      end /\
    (b = false <->
     match el with
     | None => True
     | Some e => e_click_ok e = false /\
                 (st_chains s && st_driver s && e_chain_ok e) = false /\
                 (st_driver s && e_dispatch_ok e) = false
     end).
Proof.
  destruct el as [e|].
  - destruct s as [pg run al drv ch dmin dmax pr rng tr].
    destruct e as [no k nm dv h sel v al1 alb anc prec c1 c2 c3 c4 c5 c6].
    unfold safe_click, try_, bind, driver_call, emit, modify, activate, gets, ret, raise, log.
    simpl.
    destruct c1, ch, drv, c2, c3, c4; simpl;
      eexists _, _; (split; [reflexivity|]);
      (split; [rewrite <- ?app_assoc; reflexivity|]);
      (split; [reflexivity|]); simpl; intuition congruence.
  - exists false, []. simpl. rewrite app_nil_r. intuition.
Qed.

(** ** C5 *)

Lemma truthy_false (x : string) : Py.truthy x = false -> x = EmptyString.
Proof. destruct x; [reflexivity | discriminate]. Qed.

(** Claim C5 (as amended): the display label of a radio option is the
    [value] attribute if non-empty, else the [aria-label] attribute if
    non-empty, else the label helper's result, stripped, with the
    placeholder ["<opt>"] when that is empty.  The label helper
    [_get_label_text] returns the first non-empty of: the stripped text of
    the ancestor label, of the preceding label, the stripped [aria-label],
    and the stripped text of the first element named by the
    [aria-labelledby] reference; reading the page changes nothing. *)
Theorem radio_opt_text_order (o : Elem) (s : St) :
  let by_id := map snd (filter (fun p => String.eqb (fst p) (Py.strip (opt_str (e_aria_labelledby o))))
                              (pg_ids (st_page s))) in
  let helper :=
    first_nonempty
      [Py.strip (opt_str (e_anc_label o)); Py.strip (opt_str (e_prec_label o));
       Py.strip (opt_str (e_aria_label o));
       if Py.truthy (Py.strip (opt_str (e_aria_labelledby o))) && st_driver s
       then match by_id with [] => EmptyString | t :: _ => Py.strip t end
       else EmptyString] in
  get_label_text o s = (Ok helper, s) /\
  radio_opt_text o s =
    (Ok (let txt := Py.strip (first_nonempty [opt_str (e_value o); opt_str (e_aria_label o); helper]) in
         if Py.truthy txt then txt else "<opt>"%string), s).
Proof.
  intros by_id helper.
  assert (Hg : get_label_text o s = (Ok helper, s)).
  { unfold get_label_text, label_stage, aria_stage, labelledby_stage, find_by_id,
      try_, bind, gets, ret, raise, helper, first_nonempty, by_id.
    destruct (e_anc_label o) as [a|]; simpl;
      [destruct (Py.truthy (Py.strip a)) eqn:Ha; simpl; [reflexivity|]|].
    all: destruct (e_prec_label o) as [p|]; simpl;
      [destruct (Py.truthy (Py.strip p)) eqn:Hp; simpl; [reflexivity|]|].
    all: destruct (Py.truthy (Py.strip (opt_str (e_aria_label o)))) eqn:Hr; simpl; [reflexivity|].
    all: destruct (Py.truthy (Py.strip (opt_str (e_aria_labelledby o)))) eqn:Hl; simpl;
      [|reflexivity].
    all: destruct (st_driver s); simpl; [|reflexivity].
    all: destruct (map snd _) as [|t ts]; simpl; [reflexivity|].
    all: destruct (Py.truthy (Py.strip t)) eqn:Ht; [reflexivity|].
    all: rewrite (truthy_false _ Ht); reflexivity. }
  split; [exact Hg|].
  unfold radio_opt_text, bind, ret, first_nonempty. simpl.
  destruct (Py.truthy (opt_str (e_value o))) eqn:Hv; simpl; [reflexivity|].
  destruct (Py.truthy (opt_str (e_aria_label o))) eqn:Ha; simpl; [reflexivity|].
  rewrite Hg. fold (first_nonempty [helper]).
  unfold first_nonempty; simpl. destruct (Py.truthy helper) eqn:Hh; [reflexivity|].
  destruct helper; [reflexivity|discriminate].
Qed.

(** Counterexample to claim C5 as stated: for a radio input with
    [value="1"] inside [<label>Yes</label>], the label lookup finds
    ["Yes"], but the option text used for matching is ["1"]. *)
Lemma radio_label_value_first :
  let o := radio_el 0 "q" [0%nat] (Some "1"%string) (Some "Yes"%string) in
  let s := bot_state (mkPage [o] [plain_div 0] [] (Ok []) (Ok [])) default_profile [] in
  fst (get_label_text o s) = Ok "Yes"%string /\ fst (radio_opt_text o s) = Ok "1"%string.
Proof. vm_compute. split; reflexivity. Qed.

(** ** C6 *)

(** Claim C6 fails on this page: the page [<p>Please verify you are
    human<br>CAPTCHA</p>] (elements html, body, p, br; no iframe) has a
    text node matching "captcha" case-insensitively, but the XPath query
    tests only the first text node of each element, so [_detect_captcha]
    returns false. *)
Theorem detect_captcha_misses_later_text_node :
  let texts := [[]; []; ["Please verify you are human"; "CAPTCHA"]; []]%string in
  existsb (existsb (fun t => Py.contains "captcha" (Py.lower t))) texts = true /\
  fst (detect_captcha (bot_state (mkPage [] [] [] (Ok []) (Ok texts)) default_profile []))
  = Ok false.
Proof. vm_compute. split; reflexivity. Qed.

(** ** C1 *)

(** Claim C1 fails on this page: a group (one div) holding a single
    unchecked checkbox has one candidate, so [_answer_checkboxes] calls
    [random.randint(2, min(5, 1))], an empty range, which raises
    [ValueError] out of the handler before anything is clicked, whatever
    the random draws. *)
Theorem answer_checkboxes_single_candidate (draws : list Z) :
  answer_checkboxes
    (bot_state (page_of [check_el 0 [0%nat]] [plain_div 0]) default_profile draws)
  = (Raise ValueError,
     bot_state (page_of [check_el 0 [0%nat]] [plain_div 0]) default_profile draws).
Proof. vm_compute. reflexivity. Qed.

(** ** C9 *)

Lemma live_in_self (pg : Page) (o : Elem) :
  NoDup (map e_no (pg_elems pg)) -> In o (pg_elems pg) -> live_in pg o = o.
Proof.
  unfold live_in. induction (pg_elems pg) as [|a l IH]; simpl; intros Hnd Hin; [contradiction|].
  inversion Hnd as [|? ? Hnotin Hnd']; subst.
  destruct Hin as [->|Hin].
  - rewrite Nat.eqb_refl. reflexivity.
  - assert (Nat.eqb (e_no a) (e_no o) = false) as ->.
    { apply Nat.eqb_neq. intros Heq. apply Hnotin. rewrite Heq. now apply in_map. }
    now apply IH.
Qed.

Lemma filterM_is_selected (l : list Elem) (s : St) :
  filterM is_selected l s = (Ok (filter (fun e => e_selected (live_in (st_page s) e)) l), s).
Proof.
  induction l as [|x l IH]; [reflexivity|].
  cbn [filterM]. unfold bind at 1.
  replace (is_selected x s) with (@Ok bool (e_selected (live_in (st_page s) x)), s)
    by reflexivity.
  unfold bind. rewrite IH. reflexivity.
Qed.

Lemma radios_loop_answered (s : St) :
  NoDup (map e_no (pg_elems (st_page s))) ->
  forall rs seen anc,
  (forall r, In r rs ->
     exists d ds, e_divs r = d :: ds /\
       exists o, In o (pg_elems (st_page s)) /\ e_kind o = RadioInput /\
                 In d (e_divs o) /\ e_selected o = true) ->
  radios_loop rs seen anc s = (Ok tt, s).
Proof.
  intros Hnd rs. induction rs as [|r rs IH]; intros seen anc Hall; [reflexivity|].
  destruct (Hall r (or_introl eq_refl)) as (d & ds & Hd & o & Ho & Hko & Hdo & Hso).
  assert (Hrest : forall r', In r' rs -> _) by (intros r' Hr'; exact (Hall r' (or_intror Hr'))).
  simpl. unfold bind at 1, gets at 1. destruct (st_running s) eqn:Hrun; [|reflexivity].
  simpl. unfold try_, ancestor_div, div_of, bind, gets, ret. rewrite Hd. simpl.
  match goal with |- context [mem ?c seen] => destruct (mem c seen) end.
  - apply IH. exact Hrest.
  - fold (@bind (list Elem) (list Elem)). rewrite filterM_is_selected.
    match goal with
    | |- context [Nat.eqb (length (filter ?f ?l)) 0] =>
        assert (Hsel : In o (filter f l))
    end.
    { apply filter_In. split.
      - apply filter_In. split; [assumption|]. rewrite Hko.
        apply existsb_exists. exists d. split; [assumption | apply Nat.eqb_refl].
      - rewrite live_in_self by assumption. exact Hso. }
    match goal with
    | |- context [Nat.eqb (length ?l) 0] =>
        destruct l as [|x xs]; [contradiction|]
    end.
    simpl. apply IH. exact Hrest.
Qed.

(** A pass over a page on which every radio has a div ancestor and every
    such group already has a selected option changes nothing. *)
Lemma answer_radios_all_answered (s : St) :
  NoDup (map e_no (pg_elems (st_page s))) ->
  (forall r, In r (pg_elems (st_page s)) -> is_radio (e_kind r) = true ->
     exists d ds, e_divs r = d :: ds /\
       exists o, In o (pg_elems (st_page s)) /\ e_kind o = RadioInput /\
                 In d (e_divs o) /\ e_selected o = true) ->
  answer_radios s = (Ok tt, s).
Proof.
  intros Hnd Hall. unfold answer_radios, find_kinds, bind, gets, ret.
  destruct (filter _ _) as [|r0 rs] eqn:Hf; [reflexivity|].
  rewrite <- Hf. apply radios_loop_answered; [assumption|].
  intros r Hr. apply filter_In in Hr as [Hin Hk]. now apply Hall.
Qed.

(** Counterexample to claim C9 as stated: on [split_radio_page] the first
    pass answers both one-option groups, and the second click unselects
    the first radio, since both have [name="q"].  The question is
    answered after the first pass, yet the second pass over the unchanged
    page commits two clicks. *)
Lemma answer_radios_second_pass_commits :
  let s1 := snd (answer_radios (bot_state split_radio_page default_profile [])) in
  let s2 := snd (answer_radios s1) in
  map e_selected (pg_elems (st_page s1)) = [false; true] /\
  fst (answer_radios s1) = Ok tt /\
  stages_of (skipn (length (st_trace s1)) (st_trace s2)) = [1; 1]%nat.
Proof. vm_compute. repeat split. Qed.

(* ------------------------------------------------------------------ *)
(** ** Framing lemmas for the text handlers *)

Lemma find_hd_filter {A} (f : A -> bool) (l : list A) :
  find f l = hd_error (filter f l).
Proof. induction l as [|x l IH]; simpl; [reflexivity|]. destruct (f x); auto. Qed.

Lemma frame_refl n s : frame n s s.
Proof. split; [reflexivity|]. exists []. rewrite app_nil_r. split; auto. Qed.

Lemma frame_trans n s1 s2 s3 : frame n s1 s2 -> frame n s2 s3 -> frame n s1 s3.
Proof.
  intros [H1 [e1 [T1 F1]]] [H2 [e2 [T2 F2]]]. split; [congruence|].
  exists (e1 ++ e2). rewrite T2, T1, app_assoc. split; [reflexivity|].
  apply Forall_app; auto.
Qed.

Lemma filled_frame n s s' : frame n s s' -> filled n s -> filled n s'.
Proof.
  intros [Hf _]. unfold filled. rewrite !find_hd_filter.
  unfold field_of in Hf. rewrite Hf. auto.
Qed.

Lemma keeps_ret n {A} (a : A) : keeps n (ret a).
Proof. intros s _. apply frame_refl. Qed.

Lemma keeps_raise n {A} e : keeps n (@raise A e).
Proof. intros s _. apply frame_refl. Qed.

Lemma keeps_gets n {A} (f : St -> A) : keeps n (gets f).
Proof. intros s _. apply frame_refl. Qed.

Lemma keeps_bind n {A B} (m : M A) (k : A -> M B) :
  keeps n m -> (forall a, keeps n (k a)) -> keeps n (bind m k).
Proof.
  intros Hm Hk s Hs. unfold bind. specialize (Hm s Hs).
  destruct (m s) as [[a|e] s1]; simpl in *; [|exact Hm].
  apply frame_trans with s1; [exact Hm|]. apply Hk. eapply filled_frame; eauto.
Qed.

Lemma keeps_try n {A} (m : M A) (h : exn -> M A) :
  keeps n m -> (forall e, keeps n (h e)) -> keeps n (try_ m h).
Proof.
  intros Hm Hh s Hs. unfold try_. specialize (Hm s Hs).
  destruct (m s) as [[a|e] s1]; simpl in *; [exact Hm|].
  apply frame_trans with s1; [exact Hm|]. apply Hh. eapply filled_frame; eauto.
Qed.

Lemma keeps_emit n ev : untouched n ev -> keeps n (emit ev).
Proof.
  intros Hu s _. split; [reflexivity|]. exists [ev]. split; [reflexivity|]. auto.
Qed.

Lemma keeps_log n tag msg : keeps n (log tag msg).
Proof. apply keeps_emit. exact I. Qed.

Lemma keeps_draw n : keeps n draw.
Proof.
  intros s _. unfold draw. destruct (st_rng s); [apply frame_refl|].
  split; [reflexivity|]. exists []. rewrite app_nil_r. split; auto.
Qed.

Create HintDb keeps.
#[local] Hint Resolve keeps_ret keeps_raise keeps_gets keeps_emit keeps_log keeps_draw : keeps.

(** Decomposes a computation into the steps above. *)
Ltac keeps_steps :=
  repeat match goal with
  | |- keeps _ (bind _ _) => apply keeps_bind; [|intro]
  | |- keeps _ (try_ _ _) => apply keeps_try; [|intro]
  | |- keeps _ (if ?b then _ else _) => destruct b
  | |- keeps _ (match ?x with _ => _ end) => destruct x
  | |- keeps _ (let (_, _) := ?p in _) => destruct p
  | |- _ => solve [eauto with keeps]
  end.

Lemma keeps_randbelow n m : keeps n (randbelow m).
Proof. unfold randbelow. keeps_steps. Qed.

Lemma keeps_random n : keeps n random.
Proof. unfold random. keeps_steps. Qed.

Lemma keeps_randint n a b : keeps n (randint a b).
Proof. unfold randint, randrange. keeps_steps. apply keeps_randbelow. Qed.

Lemma keeps_choice n {A} (xs : list A) : keeps n (choice xs).
Proof. unfold choice. keeps_steps. apply keeps_randbelow. Qed.

#[local] Hint Resolve keeps_randbelow keeps_random keeps_randint keeps_choice : keeps.

Lemma keeps_intelligent_answer n q o : keeps n (intelligent_answer q o).
Proof.
  unfold intelligent_answer, ans_yesno, choices_yes_no, ans_numeric,
    ans_favorite, ans_opinion, ans_fallback.
  keeps_steps.
Qed.

Lemma keeps_get_label_text n el : keeps n (get_label_text el).
Proof.
  unfold get_label_text, label_stage, aria_stage, labelledby_stage, find_by_id.
  keeps_steps.
Qed.

Lemma sleep_events_spec ds s :
  let s' := fold_left (fun s d => add_event (EvSleep d) s) ds s in
  st_page s' = st_page s /\ st_trace s' = st_trace s ++ map EvSleep ds.
Proof.
  revert s. induction ds as [|d ds IH]; intros s; simpl.
  - rewrite app_nil_r. auto.
  - destruct (IH (add_event (EvSleep d) s)) as [H1 H2]. rewrite H1, H2.
    simpl. rewrite <- app_assoc. auto.
Qed.

Lemma keeps_interruptible_sleep n : keeps n interruptible_sleep.
Proof.
  unfold interruptible_sleep, rand_delay, uniform, frandom. keeps_steps.
  intros s _. simpl. destruct (sleep_events_spec l s) as [H1 H2].
  split; [unfold field_of; rewrite H1; reflexivity|].
  exists (map EvSleep l). split; [exact H2|].
  apply Forall_forall. intros x Hx. apply in_map_iff in Hx as [d [<- _]]. exact I.
Qed.

Lemma filter_map_other n (f : Elem -> Elem) l :
  (forall e, e_no (f e) = e_no e) -> (forall e, e_no e = n -> f e = e) ->
  filter (fun e => Nat.eqb (e_no e) n) (map f l) =
  filter (fun e => Nat.eqb (e_no e) n) l.
Proof.
  intros Hno Hid. induction l as [|x l IH]; simpl; [reflexivity|].
  rewrite Hno. destruct (Nat.eqb (e_no x) n) eqn:E; [|exact IH].
  apply Nat.eqb_eq in E. rewrite Hid by exact E. f_equal. exact IH.
Qed.

Lemma keeps_set_value n el (g : Elem -> option string) :
  e_no el <> n ->
  keeps n (modify (fun s => set_page (map_elems (fun e =>
    if Nat.eqb (e_no e) (e_no el) then with_value (g e) e else e) (st_page s)) s)).
Proof.
  intros Hne s _. split; [|exists []; rewrite app_nil_r; split; auto].
  unfold field_of. simpl. apply filter_map_other.
  - intros e. destruct (Nat.eqb (e_no e) (e_no el)); reflexivity.
  - intros e <-. destruct (Nat.eqb (e_no e) (e_no el)) eqn:E; [|reflexivity].
    apply Nat.eqb_eq in E. congruence.
Qed.

Lemma keeps_clear_field n el : e_no el <> n -> keeps n (clear_field el).
Proof.
  intros Hne. unfold clear_field. destruct (e_clear_ok el); [|apply keeps_raise].
  apply keeps_bind; [apply keeps_emit; exact Hne|intros _].
  apply (keeps_set_value n el (fun _ => Some EmptyString) Hne).
Qed.

Lemma keeps_send_keys n el txt : e_no el <> n -> keeps n (send_keys el txt).
Proof.
  intros Hne. unfold send_keys. destruct (e_send_ok el); [|apply keeps_raise].
  apply keeps_bind; [apply keeps_emit; exact Hne|intros _].
  apply (keeps_set_value n el (fun e => Some (opt_str (e_value e) ++ txt)%string) Hne).
Qed.

(** The field numbered [n] itself is skipped when it is filled. *)
Lemma fill_field_filled n q tag el s :
  e_no el = n -> filled n s -> fill_field q tag el s = (Ok true, s).
Proof.
  intros Hno Hs. unfold filled in Hs.
  cbv [fill_field bind get_value live gets ret live_in]. rewrite Hno.
  destruct (find _ _) as [e|]; [|contradiction]. rewrite Hs. reflexivity.
Qed.

Lemma keeps_fill_field n q tag el : keeps n (fill_field q tag el).
Proof.
  destruct (Nat.eq_dec (e_no el) n) as [Heq|Hne].
  - intros s Hs. rewrite (fill_field_filled n q tag el s Heq Hs). apply frame_refl.
  - unfold fill_field, get_value, live.
    pose proof (keeps_clear_field n el Hne).
    pose proof (keeps_send_keys n el). 
    keeps_steps; auto using keeps_get_label_text, keeps_intelligent_answer.
Qed.

Lemma keeps_fill_loop n q tag els : keeps n (fill_loop q tag els).
Proof.
  induction els as [|el els IH]; simpl; keeps_steps;
    auto using keeps_fill_field, keeps_interruptible_sleep.
Qed.

Lemma draw_spec s : exists d s', draw s = (Ok d, s') /\ st_page s' = st_page s /\
  st_trace s' = st_trace s /\ st_profile s' = st_profile s.
Proof. unfold draw. destruct (st_rng s); eauto 7. Qed.

Lemma choice_spec {A} (xs : list A) s : xs <> [] ->
  exists x s', choice xs s = (Ok x, s') /\ In x xs /\ st_page s' = st_page s /\
  st_trace s' = st_trace s.
Proof.
  intros Hne. destruct xs as [|x0 xs]; [congruence|].
  destruct (draw_spec s) as (d & s1 & Hd & Hp & Ht & _).
  exists (nth (Z.to_nat (d mod Z.of_nat (length (x0 :: xs)))) (x0 :: xs) x0), s1.
  split; [unfold choice, randbelow, bind; rewrite Hd; reflexivity|].
  split; [|auto]. apply nth_In.
  assert (0 <= d mod Z.of_nat (length (x0 :: xs)) < Z.of_nat (length (x0 :: xs)))
    by (apply Z.mod_pos_bound; simpl; lia).
  lia.
Qed.

Lemma interruptible_sleep_spec s : exists b s', interruptible_sleep s = (Ok b, s') /\
  st_page s' = st_page s /\ exists evs, st_trace s' = st_trace s ++ evs.
Proof.
  destruct (draw_spec s) as (d1 & s1 & H1 & P1 & T1 & _).
  destruct (draw_spec s1) as (d2 & s2 & H2 & P2 & T2 & _).
  unfold interruptible_sleep, rand_delay, uniform, frandom, bind, gets, ret.
  rewrite H1, H2.
  destruct (interruptible_sleep_for _ _) as [b ds].
  unfold modify. destruct (sleep_events_spec ds s2) as [E1 E2].
  eexists _, _. split; [reflexivity|]. split; [congruence|].
  exists (map EvSleep ds). rewrite E2. congruence.
Qed.

(* ------------------------------------------------------------------ *)
(** ** The worker loop keeps [alive] *)

Lemma alive_ret {A} (a : A) : keeps_alive (ret a).
Proof. intros s. reflexivity. Qed.

Lemma alive_raise {A} e : keeps_alive (@raise A e).
Proof. intros s. reflexivity. Qed.

Lemma alive_gets {A} (f : St -> A) : keeps_alive (gets f).
Proof. intros s. reflexivity. Qed.

Lemma alive_modify f : (forall s, st_alive (f s) = st_alive s) -> keeps_alive (modify f).
Proof. intros Hf s. apply Hf. Qed.

Lemma alive_bind {A B} (m : M A) (k : A -> M B) :
  keeps_alive m -> (forall a, keeps_alive (k a)) -> keeps_alive (bind m k).
Proof.
  intros Hm Hk s. unfold bind. specialize (Hm s).
  destruct (m s) as [[a|e] s1]; simpl in *; [rewrite Hk|]; exact Hm.
Qed.

Lemma alive_try {A} (m : M A) (h : exn -> M A) :
  keeps_alive m -> (forall e, keeps_alive (h e)) -> keeps_alive (try_ m h).
Proof.
  intros Hm Hh s. unfold try_. specialize (Hm s).
  destruct (m s) as [[a|e] s1]; simpl in *; [|rewrite Hh]; exact Hm.
Qed.

Lemma alive_draw : keeps_alive draw.
Proof. intros s. unfold draw. destruct (st_rng s); reflexivity. Qed.

Lemma alive_emit ev : keeps_alive (emit ev).
Proof. intros s. reflexivity. Qed.

Lemma alive_log tag msg : keeps_alive (log tag msg).
Proof. intros s. reflexivity. Qed.

Lemma alive_of_res {A} (r : res A) : keeps_alive (of_res r).
Proof. destruct r; intros s; reflexivity. Qed.

Create HintDb alive.
#[local] Hint Resolve alive_ret alive_raise alive_gets alive_draw alive_emit alive_log
  alive_of_res : alive.

Ltac alive_steps :=
  repeat match goal with
  | |- keeps_alive (bind _ _) => apply alive_bind; [|intro]
  | |- keeps_alive (try_ _ _) => apply alive_try; [|intro]
  | |- keeps_alive (modify _) => apply alive_modify; intro; reflexivity
  | |- keeps_alive (if ?b then _ else _) => destruct b
  | |- keeps_alive (match ?x with _ => _ end) => destruct x
  | |- keeps_alive (let (_, _) := ?p in _) => destruct p
  | |- _ => solve [eauto with alive]
  end.

Lemma alive_randbelow n : keeps_alive (randbelow n).
Proof. unfold randbelow. alive_steps. Qed.

Lemma alive_random : keeps_alive random.
Proof. unfold random. alive_steps. Qed.

Lemma alive_randint a b : keeps_alive (randint a b).
Proof. unfold randint, randrange. alive_steps. apply alive_randbelow. Qed.

Lemma alive_choice {A} (xs : list A) : keeps_alive (choice xs).
Proof. unfold choice. alive_steps. apply alive_randbelow. Qed.

#[local] Hint Resolve alive_randbelow alive_random alive_randint alive_choice : alive.

Lemma alive_sample_loop {A} fuel i n (pool : list A) : keeps_alive (sample_loop fuel i n pool).
Proof.
  revert i pool. induction fuel as [|f IH]; intros i pool; simpl; alive_steps.
Qed.

Lemma alive_sample {A} (pop : list A) k : keeps_alive (sample pop k).
Proof. unfold sample. alive_steps. apply alive_sample_loop. Qed.

Lemma alive_intelligent_answer q o : keeps_alive (intelligent_answer q o).
Proof.
  unfold intelligent_answer, ans_yesno, choices_yes_no, ans_numeric,
    ans_favorite, ans_opinion, ans_fallback.
  alive_steps.
Qed.

Lemma alive_get_label_text el : keeps_alive (get_label_text el).
Proof.
  unfold get_label_text, label_stage, aria_stage, labelledby_stage, find_by_id.
  alive_steps.
Qed.

Lemma alive_radio_opt_text o : keeps_alive (radio_opt_text o).
Proof. unfold radio_opt_text. alive_steps. apply alive_get_label_text. Qed.

Lemma alive_sleep_events ds s :
  st_alive (fold_left (fun s d => add_event (EvSleep d) s) ds s) = st_alive s.
Proof. revert s. induction ds as [|d ds IH]; intros s; simpl; [|rewrite IH]; reflexivity. Qed.

Lemma alive_interruptible_sleep : keeps_alive interruptible_sleep.
Proof.
  unfold interruptible_sleep, rand_delay, uniform, frandom. alive_steps.
  apply alive_modify. intro. apply alive_sleep_events.
Qed.

Lemma alive_safe_click el : keeps_alive (safe_click el).
Proof. unfold safe_click, driver_call, activate. alive_steps. Qed.

Lemma alive_mapM {A B} (f : A -> M B) l :
  (forall x, keeps_alive (f x)) -> keeps_alive (mapM f l).
Proof. intros Hf. induction l; simpl; alive_steps. Qed.

Lemma alive_filterM {A} (f : A -> M bool) l :
  (forall x, keeps_alive (f x)) -> keeps_alive (filterM f l).
Proof. intros Hf. induction l; simpl; alive_steps. Qed.

#[local] Hint Resolve alive_sample alive_intelligent_answer alive_get_label_text
  alive_radio_opt_text alive_interruptible_sleep alive_safe_click : alive.

Lemma alive_radios_loop rs seen anc : keeps_alive (radios_loop rs seen anc).
Proof.
  revert seen anc. induction rs as [|r rs IH]; intros seen anc; cbn [radios_loop];
    unfold ancestor_div, div_of, inputs_under; alive_steps;
    try (apply alive_filterM; intro; unfold is_selected, live; alive_steps);
    try (apply alive_mapM; intro; alive_steps).
Qed.

Lemma alive_select_loop ss : keeps_alive (select_loop ss).
Proof. induction ss as [|x ss IH]; cbn [select_loop]; alive_steps. Qed.

#[local] Hint Resolve alive_select_loop : alive.

Lemma alive_boxes_loop bs seen anc : keeps_alive (boxes_loop bs seen anc).
Proof.
  revert seen anc. induction bs as [|b bs IH]; intros seen anc; cbn [boxes_loop];
    unfold ancestor_div, div_of, inputs_under; alive_steps;
    apply alive_filterM; intro; unfold is_selected, live; alive_steps.
Qed.

Lemma alive_fill_loop q tag els : keeps_alive (fill_loop q tag els).
Proof.
  induction els as [|el els IH]; cbn [fill_loop];
    unfold fill_field, get_value, live, clear_field, send_keys; alive_steps.
Qed.

Lemma alive_iframe_loop fs : keeps_alive (iframe_loop fs).
Proof. induction fs; cbn [iframe_loop]; alive_steps. Qed.

Lemma bot_handlers_keep_alive sel nxt :
  keeps_alive sel -> keeps_alive nxt ->
  let H := bot_handlers sel nxt in
  keeps_alive (h_detect H) /\ keeps_alive (h_radios H) /\ keeps_alive (h_checkboxes H) /\
  keeps_alive (h_texts H) /\ keeps_alive (h_textareas H) /\ keeps_alive (h_selects H) /\
  keeps_alive (h_next H).
Proof.
  intros Hs Hn. cbn. repeat split; auto.
  - unfold detect_captcha. alive_steps. apply alive_iframe_loop.
  - unfold answer_radios, find_kinds. alive_steps; apply alive_radios_loop.
  - unfold answer_checkboxes, find_kinds. alive_steps; apply alive_boxes_loop.
  - unfold answer_texts, find_kinds. alive_steps. apply alive_fill_loop.
  - unfold answer_textareas, find_kinds. alive_steps. apply alive_fill_loop.
Qed.

Section ThreadMainProps.
Variable H : Handlers.
Hypothesis Hd : keeps_alive (h_detect H).
Hypothesis Hr : keeps_alive (h_radios H).
Hypothesis Hc : keeps_alive (h_checkboxes H).
Hypothesis Ht : keeps_alive (h_texts H).
Hypothesis Hta : keeps_alive (h_textareas H).
Hypothesis Hs : keeps_alive (h_selects H).
Hypothesis Hn : keeps_alive (h_next H).

Lemma alive_pass_body : keeps_alive (pass_body H).
Proof. unfold pass_body, handler_chain. alive_steps. Qed.

Lemma thread_pass_total s :
  exists s', thread_pass H s = (Ok tt, s') /\ st_alive s' = st_alive s.
Proof.
  pose proof (alive_pass_body s) as Ha.
  unfold thread_pass, try_. destruct (pass_body H s) as [[[]|e] s1]; simpl in *.
  - eauto.
  - eexists. split; [reflexivity|]. exact Ha.
Qed.

Lemma thread_loop_total fuel s :
  fst (thread_loop H fuel s) = Ok tt /\ st_alive (snd (thread_loop H fuel s)) = st_alive s.
Proof.
  revert s. induction fuel as [|f IH]; intros s; [split; reflexivity|].
  cbn [thread_loop]. unfold bind, gets, ret, negb.
  destruct (st_alive s) eqn:Ea; [|simpl; auto].
  destruct (st_running s).
  - destruct (thread_pass_total s) as (s1 & E1 & A1). rewrite E1.
    destruct (IH s1) as [IH1 IH2]. split; [exact IH1|congruence].
  - unfold emit, modify. destruct (IH (add_event (EvSleep f0_12) s)) as [IH1 IH2].
    split; [exact IH1|]. rewrite IH2. exact Ea.
Qed.

Lemma thread_main_total fuel s :
  fst (thread_main H fuel s) = Ok tt /\ st_alive (snd (thread_main H fuel s)) = st_alive s.
Proof.
  unfold thread_main, log, emit, modify, bind at 1.
  destruct (thread_loop_total fuel (add_event (EvLog "[Loop]" "Thread ready.") s)) as [E1 A1].
  unfold bind. destruct (thread_loop H fuel _) as [[[]|e] s1]; simpl in *; [|discriminate].
  split; [reflexivity|]. exact A1.
Qed.

Lemma thread_pass_raise_paused s e s1 :
  pass_body H s = (Raise e, s1) -> ends_paused (thread_pass H) s.
Proof.
  intros E. pose proof (alive_pass_body s) as Ha. rewrite E in Ha. simpl in Ha.
  unfold ends_paused, thread_pass, try_. rewrite E. eexists. split; [reflexivity|].
  split; [reflexivity|]. exact Ha.
Qed.

Lemma thread_pass_detect_paused s s1 :
  h_detect H s = (Ok true, s1) -> ends_paused (thread_pass H) s.
Proof.
  intros E. pose proof (Hd s) as Ha. rewrite E in Ha. simpl in Ha.
  unfold ends_paused, thread_pass, try_, pass_body, bind at 1. rewrite E.
  eexists. split; [reflexivity|]. split; [reflexivity|]. exact Ha.
Qed.

Lemma thread_pass_next_false_paused s s1 s2 s3 :
  h_detect H s = (Ok false, s1) -> handler_chain H s1 = (Ok true, s2) ->
  h_next H s2 = (Ok false, s3) -> ends_paused (thread_pass H) s.
Proof.
  intros E1 E2 E3.
  pose proof (Hd s) as A1. rewrite E1 in A1.
  assert (Hch : keeps_alive (handler_chain H)) by (unfold handler_chain; alive_steps).
  pose proof (Hch s1) as A2. rewrite E2 in A2.
  pose proof (Hn s2) as A3. rewrite E3 in A3. simpl in A1, A2, A3.
  unfold ends_paused, thread_pass, try_, pass_body, bind at 1. rewrite E1.
  unfold bind at 1. rewrite E2. cbv [negb]. unfold bind at 1. rewrite E3.
  eexists. split; [reflexivity|]. split; [reflexivity|]. simpl. congruence.
Qed.

End ThreadMainProps.

(** C3: the worker loop never leaves the alive state on its own.  For any
    number of iterations [_thread_main] returns normally (no exception
    escapes it) and [alive] is as before; a pass that detects a challenge,
    a pass whose [_click_next_if_any] returns false after the handlers ran,
    and a pass whose body raises any exception each end normally with
    [running = false] and [alive] unchanged (the Paused state).  The
    abstract [_answer_selects] and [_click_next_if_any] are only assumed
    not to write [alive]. *)
Theorem thread_main_never_stops (answer_selects : M unit) (click_next_if_any : M bool)
  (Hsel : keeps_alive answer_selects) (Hnext : keeps_alive click_next_if_any) :
  let H := bot_handlers answer_selects click_next_if_any in
  (forall fuel s, fst (thread_main H fuel s) = Ok tt /\
                  st_alive (snd (thread_main H fuel s)) = st_alive s) /\
  (forall s s1, h_detect H s = (Ok true, s1) -> ends_paused (thread_pass H) s) /\
  (forall s s1 s2 s3, h_detect H s = (Ok false, s1) -> handler_chain H s1 = (Ok true, s2) ->
     click_next_if_any s2 = (Ok false, s3) -> ends_paused (thread_pass H) s) /\
  (forall s e s1, pass_body H s = (Raise e, s1) -> ends_paused (thread_pass H) s).
Proof.
  intros H.
  destruct (bot_handlers_keep_alive answer_selects click_next_if_any Hsel Hnext)
    as (Hd & Hr & Hc & Ht & Hta & Hs & Hn).
  split; [|split; [|split]].
  - intros fuel s. apply thread_main_total; assumption.
  - intros s s1. apply thread_pass_detect_paused; assumption.
  - intros s s1 s2 s3. apply thread_pass_next_false_paused; assumption.
  - intros s e s1. apply thread_pass_raise_paused; assumption.
Qed.

Lemma thread_main_never_stops_witness :
  let s0 := bot_state empty_page default_profile [] in
  let H := bot_handlers (ret tt) (ret false) in
  keeps_alive (ret tt) /\ keeps_alive (ret false) /\
  fst (thread_main H 3 s0) = Ok tt /\ ends_paused (thread_pass H) s0.
Proof.
  intros s0 H.
  assert (H1 : keeps_alive (ret tt)) by (intro; reflexivity).
  assert (H2 : keeps_alive (ret false)) by (intro; reflexivity).
  assert (E1 : h_detect H s0 = (Ok false, s0)) by reflexivity.
  assert (E2 : handler_chain H s0 = (Ok true, s0)) by (vm_compute; reflexivity).
  assert (E3 : ret false s0 = (Ok false, s0)) by reflexivity.
  pose proof (thread_main_never_stops (ret tt) (ret false) H1 H2) as T.
  split; [exact H1|]. split; [exact H2|]. split.
  - exact (proj1 (proj1 T 3%nat s0)).
  - exact (proj1 (proj2 (proj2 T)) s0 s0 s0 s0 E1 E2 E3).
Defined.

(* ------------------------------------------------------------------ *)
(** ** [random.sample] *)

Lemma firstn_S_nth {A} (l : list A) (d : A) (k : nat) :
  (k < length l)%nat -> firstn (S k) l = firstn k l ++ [nth k l d].
Proof.
  revert l. induction k as [|k IH]; intros [|x l] Hk; simpl in *; try lia.
  - reflexivity.
  - rewrite IH by lia. reflexivity.
Qed.

(** One step of the pool algorithm of [random.sample]: the active part of
    the pool loses the pick, and gets its last element moved in its place. *)
Lemma pool_step_perm {A} (l : list A) (d : A) (m j : nat) :
  (j < m)%nat -> (m <= length l)%nat ->
  Permutation (firstn m l)
    (nth j l d :: firstn (m - 1) (firstn j l ++ nth (m - 1) l d :: skipn (S j) l)).
Proof.
  intros Hj Hm.
  destruct (nth_split l d (n := j) ltac:(lia)) as (P & C & Hl & HP).
  set (x := nth j l d) in *. rewrite Hl.
  assert (HlenC : length l = (j + S (length C))%nat) by (rewrite Hl, length_app; simpl; lia).
  rewrite firstn_app, firstn_all2 by lia. rewrite HP.
  replace (firstn j (P ++ x :: C)) with P
    by (rewrite firstn_app, firstn_all2, HP, Nat.sub_diag by lia; simpl; rewrite app_nil_r; reflexivity).
  replace (skipn (S j) (P ++ x :: C)) with C
    by (rewrite skipn_app, skipn_all2, HP by lia; replace (S j - j)%nat with 1%nat by lia; reflexivity).
  rewrite app_nth2 by lia. rewrite HP.
  destruct (Nat.eq_dec (m - 1) j) as [Heq|Hne].
  - rewrite Heq, Nat.sub_diag. replace (m - j)%nat with 1%nat by lia. simpl.
    rewrite firstn_app, firstn_all2, HP, Nat.sub_diag by lia. simpl.
    rewrite app_nil_r. apply Permutation_sym, Permutation_cons_append.
  - set (k := (m - j - 2)%nat).
    replace (m - 1 - j)%nat with (S k) by lia. replace (m - j)%nat with (S (S k)) by lia.
    change (nth (S k) (x :: C) d) with (nth k C d).
    change (firstn (S (S k)) (x :: C)) with (x :: firstn (S k) C).
    rewrite firstn_app, (firstn_all2 P), HP by lia. replace (m - 1 - j)%nat with (S k) by lia.
    change (firstn (S k) (nth k C d :: C)) with (nth k C d :: firstn k C).
    rewrite (firstn_S_nth C d k) by lia.
    eapply Permutation_trans; [apply Permutation_sym, Permutation_middle|].
    apply perm_skip. apply Permutation_app_head.
    apply Permutation_sym, Permutation_cons_append.
Qed.

Lemma sample_loop_perm {A} (fuel : nat) (i n : Z) (pool : list A) (s : St) :
  Z.of_nat fuel <= n - i -> (Z.to_nat (n - i) <= length pool)%nat ->
  exists picks s', sample_loop fuel i n pool s = (Ok picks, s') /\
    length picks = fuel /\
    (exists rest, Permutation (firstn (Z.to_nat (n - i)) pool) (picks ++ rest)) /\
    st_page s' = st_page s /\ st_trace s' = st_trace s /\ st_running s' = st_running s.
Proof.
  revert i pool s. induction fuel as [|f IH]; intros i pool s Hf Hlen.
  - exists [], s. split; [destruct pool; reflexivity|].
    split; [reflexivity|]. split; [|auto].
    exists (firstn (Z.to_nat (n - i)) pool). reflexivity.
  - destruct pool as [|p0 ps]; [simpl in Hlen; lia|].
    set (pool := p0 :: ps) in *.
    destruct (draw_spec s) as (d & s1 & Hd & P1 & T1 & _).
    assert (Hrun1 : st_running s1 = st_running s)
      by (unfold draw in Hd; destruct (st_rng s); inversion Hd; reflexivity).
    set (j := d mod (n - i)).
    assert (Hjb : 0 <= j < n - i) by (apply Z.mod_pos_bound; lia).
    set (x := nth (Z.to_nat j) pool p0).
    set (last := nth (Z.to_nat (n - i - 1)) pool p0).
    set (pool' := firstn (Z.to_nat j) pool ++ last :: skipn (S (Z.to_nat j)) pool).
    assert (Hlen' : length pool' = length pool).
    { unfold pool'. rewrite length_app. cbn [length]. rewrite length_firstn, length_skipn. lia. }
    destruct (IH (i + 1) pool' s1 ltac:(lia) ltac:(lia))
      as (picks & s2 & E & Hl & (rest & Hp) & P2 & T2 & R2).
    exists (x :: picks), s2.
    split.
    { cbn [sample_loop]. unfold pool. unfold bind at 1, randbelow, bind at 1. rewrite Hd.
      unfold ret at 1. fold pool. fold j x last pool'. unfold bind at 1. rewrite E. reflexivity. }
    split; [simpl; lia|].
    split; [|split; [congruence|split; congruence]].
    exists rest.
    eapply Permutation_trans.
    + apply (pool_step_perm pool p0 (Z.to_nat (n - i)) (Z.to_nat j)); lia.
    + fold x. replace (Z.to_nat (n - i) - 1)%nat with (Z.to_nat (n - (i + 1))) by lia.
      replace (nth (Z.to_nat (n - (i + 1))) pool p0) with last
        by (unfold last; f_equal; lia).
      fold pool'. simpl. apply perm_skip. exact Hp.
Qed.

Lemma sample_spec {A} (pop : list A) (k : Z) (s : St) :
  (k < 0 \/ Z.of_nat (length pop) < k -> sample pop k s = (Raise ValueError, s)) /\
  (0 <= k <= Z.of_nat (length pop) ->
   exists picks s', sample pop k s = (Ok picks, s') /\ Z.of_nat (length picks) = k /\
     (exists rest, Permutation pop (picks ++ rest)) /\
     st_page s' = st_page s /\ st_trace s' = st_trace s /\ st_running s' = st_running s).
Proof.
  unfold sample. split.
  - intros Hk. replace ((k <? 0) || (Z.of_nat (length pop) <? k))%bool with true
      by (destruct Hk; symmetry; apply orb_true_iff; [left|right]; apply Z.ltb_lt; lia).
    reflexivity.
  - intros Hk. replace ((k <? 0) || (Z.of_nat (length pop) <? k))%bool with false
      by (symmetry; apply orb_false_iff; split; apply Z.ltb_ge; lia).
    destruct (sample_loop_perm (Z.to_nat k) 0 (Z.of_nat (length pop)) pop s
                ltac:(lia) ltac:(lia)) as (picks & s' & E & Hl & (rest & Hp) & R).
    exists picks, s'. split; [exact E|]. split; [lia|]. split; [|exact R].
    exists rest. rewrite firstn_all2 in Hp by lia. exact Hp.
Qed.

(** [random.sample(population, k)], as used by [_answer_checkboxes] and
    [_answer_selects], on populations of at most 21 elements (where CPython
    runs the pool algorithm modelled here): it raises [ValueError] when [k]
    is negative or larger than the population; otherwise it returns [k]
    picks taken at distinct positions of the population (the picks and the
    rest are a permutation of it), so the picks are members of the
    population and have no duplicates when the population has none; it
    neither clicks nor logs. *)
Theorem sample_picks_distinct {A} (pop : list A) (k : Z) (s : St) :
  (length pop <= 21)%nat ->
  (k < 0 \/ Z.of_nat (length pop) < k -> sample pop k s = (Raise ValueError, s)) /\
  (0 <= k <= Z.of_nat (length pop) ->
   exists picks s', sample pop k s = (Ok picks, s') /\ Z.of_nat (length picks) = k /\
     (exists rest, Permutation pop (picks ++ rest)) /\
     (forall x, In x picks -> In x pop) /\ (NoDup pop -> NoDup picks) /\
     st_page s' = st_page s /\ st_trace s' = st_trace s).
Proof.
  intros _. destruct (sample_spec pop k s) as [Hneg Hok]. split; [exact Hneg|].
  intros Hk. destruct (Hok Hk) as (picks & s' & E & Hl & (rest & Hp) & P & T & _).
  exists picks, s'. split; [exact E|]. split; [exact Hl|]. split; [eauto|].
  split; [|split; [|auto]].
  - intros x Hx. apply (Permutation_in _ (Permutation_sym Hp)). apply in_or_app. auto.
  - intros Hnd. apply (Permutation_NoDup Hp) in Hnd. eapply NoDup_app_remove_r. exact Hnd.
Qed.

(* ------------------------------------------------------------------ *)
(** ** Further properties of the handlers and helpers *)

Lemma choice_in {A} (xs : list A) s x s' : choice xs s = (Ok x, s') -> In x xs.
Proof.
  intros H. destruct xs as [|x0 xs]; [discriminate|].
  destruct (choice_spec (x0 :: xs) s ltac:(discriminate)) as (y & s'' & E & Hy & _).
  rewrite E in H. congruence.
Qed.

Lemma randint_range a b s n s' : randint a b s = (Ok n, s') -> a <= n <= b.
Proof.
  unfold randint, randrange. destruct (b + 1 - a <=? 0) eqn:W; [discriminate|].
  apply Z.leb_gt in W. destruct (draw_spec s) as (d & s1 & Hd & _).
  unfold randbelow, bind. rewrite Hd. unfold ret. intros H. inversion H; subst.
  pose proof (Z.mod_pos_bound d (b + 1 - a) ltac:(lia)). lia.
Qed.

Lemma draw_profile s d s' : draw s = (Ok d, s') -> st_profile s' = st_profile s.
Proof. unfold draw. destruct (st_rng s); intros H; inversion H; reflexivity. Qed.

(** [intelligent_answer] answers only from its fixed sources: "Yes" or
    "No", an age between 18 and 65 written in decimal, one of the given
    options, or an entry of the profile's text or textarea pool. *)
Theorem intelligent_answer_range q o s a s' :
  intelligent_answer q o s = (Ok a, s') ->
  a = "Yes"%string \/ a = "No"%string \/ (exists n, 18 <= n <= 65 /\ a = str_of_Z n) \/
  In a o \/ In a (profile_text (st_profile s)) \/ In a (profile_textarea (st_profile s)).
Proof.
  unfold intelligent_answer.
  destruct (any_kw KW_yesno _).
  { unfold ans_yesno, choices_yes_no, random, bind, ret.
    destruct (draw s) as [[d|e] s1]; [|discriminate].
    intros H; inversion H. destruct (Qle_bool _ _); auto. }
  destruct (any_kw KW_numbers _).
  { unfold ans_numeric, bind, ret. destruct (randint 18 65 s) as [[n|e] s1] eqn:E; [|discriminate].
    intros H; inversion H; subst. right; right; left. exists n. split; [|reflexivity].
    exact (randint_range _ _ _ _ _ E). }
  destruct (_ && _).
  { unfold ans_favorite. intros H. right; right; right; left. exact (choice_in _ _ _ _ H). }
  destruct (any_kw KW_opinion _).
  { unfold ans_opinion, random, bind, gets. destruct (draw s) as [[d|e] s1] eqn:Hd; [|discriminate].
    unfold ret. rewrite (draw_profile _ _ _ Hd).
    destruct (Qle_bool _ _); intros H; apply choice_in in H; auto 6. }
  unfold ans_fallback. destruct o as [|o0 os].
  { unfold bind, gets. intros H. apply choice_in in H. auto 6. }
  unfold try_. destruct (choice (o0 :: os) s) as [[x|e] s1] eqn:E.
  - intros H; inversion H; subst. apply choice_in in E. auto 6.
  - unfold ret. intros H; inversion H; subst. simpl; auto 6.
Qed.

Lemma intelligent_answer_range_witness :
  intelligent_answer (Some "How old are you?"%string) []
    (bot_state empty_page default_profile [5])
  = (Ok "23"%string, set_rng [] (bot_state empty_page default_profile [5])) /\
  ("23" = "Yes" \/ "23" = "No" \/ (exists n, 18 <= n <= 65 /\ "23" = str_of_Z n) \/
   In "23" [] \/ In "23" (profile_text default_profile) \/
   In "23" (profile_textarea default_profile))%string.
Proof.
  split; [reflexivity|].
  apply (intelligent_answer_range (Some "How old are you?"%string) []
           (bot_state empty_page default_profile [5])
           _ (set_rng [] (bot_state empty_page default_profile [5]))).
  reflexivity.
Defined.

Lemma intelligent_answer_ok q o s :
  profile_text (st_profile s) <> [] -> profile_textarea (st_profile s) <> [] ->
  exists a s', intelligent_answer q o s = (Ok a, s').
Proof.
  intros Ht Hta. destruct (draw_spec s) as (d & s1 & Hd & _ & _ & Hp).
  unfold intelligent_answer.
  destruct (any_kw KW_yesno _).
  { unfold ans_yesno, choices_yes_no, random, bind, ret. rewrite Hd. eauto. }
  destruct (any_kw KW_numbers _).
  { unfold ans_numeric, randint, randrange, randbelow, bind, ret. simpl. rewrite Hd. eauto. }
  destruct (_ && _) eqn:Ef.
  { destruct o as [|o0 os]; [discriminate|].
    destruct (choice_spec (o0 :: os) s ltac:(discriminate)) as (x & s' & E & _).
    unfold ans_favorite. eauto. }
  destruct (any_kw KW_opinion _).
  { unfold ans_opinion, random, bind, gets. rewrite Hd. unfold ret. rewrite Hp.
    destruct (Qle_bool _ _).
    - destruct (choice_spec _ s1 Ht) as (x & s' & E & _). eauto.
    - destruct (choice_spec _ s1 Hta) as (x & s' & E & _). eauto. }
  unfold ans_fallback. destruct o as [|o0 os].
  - unfold bind, gets. destruct (choice_spec _ s Ht) as (x & s' & E & _). eauto.
  - unfold try_. destruct (choice (o0 :: os) s) as [[x|e] s1'].
    + eauto.
    + unfold ret. eauto.
Qed.

(** Every profile the bot can hold, the one of [SurveyBot.__init__] and
    each one [SurveyGUI.save_profile] installs, has non-empty pools, so
    [intelligent_answer] never raises with it, whatever the question and
    options. *)
Theorem saved_profiles_answer (name : string) (p : Profile) q o s :
  save_profile name = Some p \/ p = default_profile -> st_profile s = p ->
  exists a s', intelligent_answer q o s = (Ok a, s').
Proof.
  intros Hp Hs. apply intelligent_answer_ok; rewrite Hs.
  - destruct Hp as [Hp|Hp]; [|subst; cbv; discriminate].
    unfold save_profile in Hp. cbn [profiles_data lookup_profile] in Hp.
    repeat match type of Hp with context [String.eqb ?a ?b] => destruct (String.eqb a b) end;
      try discriminate; inversion Hp; cbv; discriminate.
  - destruct Hp as [Hp|Hp]; [|subst; cbv; discriminate].
    unfold save_profile in Hp. cbn [profiles_data lookup_profile] in Hp.
    repeat match type of Hp with context [String.eqb ?a ?b] => destruct (String.eqb a b) end;
      try discriminate; inversion Hp; cbv; discriminate.
Qed.

Lemma saved_profiles_answer_witness :
  (save_profile "Bold" = Some bold_profile \/ bold_profile = default_profile) /\
  exists a s', intelligent_answer (Some "Any thoughts?"%string) []
                 (bot_state empty_page bold_profile []) = (Ok a, s').
Proof.
  assert (H : save_profile "Bold" = Some bold_profile \/ bold_profile = default_profile)
    by (left; reflexivity).
  split; [exact H|].
  exact (saved_profiles_answer "Bold" bold_profile _ _ (bot_state empty_page bold_profile [])
           H eq_refl).
Defined.

Lemma iframe_loop_unreadable pre e post s :
  Forall (fun f => exists src, f = Ok src /\
     (Py.contains "recaptcha" (Py.lower (opt_str src)) || Py.contains "hcaptcha" (Py.lower (opt_str src))
      || Py.contains "geetest" (Py.lower (opt_str src)))%bool = false) pre ->
  iframe_loop (pre ++ Raise e :: post) s = (Raise e, s).
Proof.
  induction 1 as [|f pre (src & -> & Hno) _ IH]; [reflexivity|].
  cbn [app iframe_loop]. unfold of_res, bind at 1, ret. rewrite Hno. exact IH.
Qed.

(** An iframe whose [src] cannot be read, after iframes without a
    challenge marker, makes [_detect_captcha] report no challenge and leave
    the state as it was, even when a later iframe or the page text shows
    one: the exception leaves the whole [try] block. *)
Theorem detect_captcha_unreadable_frame s pre e post :
  pg_iframes (st_page s) = Ok (pre ++ Raise e :: post) ->
  Forall (fun f => exists src, f = Ok src /\
     (Py.contains "recaptcha" (Py.lower (opt_str src)) || Py.contains "hcaptcha" (Py.lower (opt_str src))
      || Py.contains "geetest" (Py.lower (opt_str src)))%bool = false) pre ->
  detect_captcha s = (Ok false, s).
Proof.
  intros Hf Hpre. unfold detect_captcha, try_, bind, gets. rewrite Hf.
  unfold of_res at 1, ret at 1. rewrite (iframe_loop_unreadable _ _ _ _ Hpre).
  reflexivity.
Qed.

Lemma detect_captcha_unreadable_frame_witness :
  detect_captcha (bot_state unreadable_frame_page default_profile [])
  = (Ok false, bot_state unreadable_frame_page default_profile []).
Proof.
  apply (detect_captcha_unreadable_frame _ [] WebDriverError
           [Ok (Some "https://www.google.com/recaptcha/api2/anchor"%string)]).
  - reflexivity.
  - constructor.
Defined.

(** In [_answer_radios] a radio without div ancestor, when an earlier radio
    bound [anc] to a div whose radio group has a selected option, is marked
    seen under its own hash and skipped without being answered: the failed
    [find_element] leaves the previous [anc] in place. *)
Theorem radios_loop_stale_ancestor r rs seen d s :
  st_running s = true -> e_divs r = [] -> mem (e_hash r) seen = false ->
  (exists o, In o (pg_elems (st_page s)) /\ e_kind o = RadioInput /\ In d (e_divs o) /\
             e_selected (live_in (st_page s) o) = true) ->
  radios_loop (r :: rs) seen (Some d) s = radios_loop rs (e_hash r :: seen) (Some d) s.
Proof.
  intros Hrun Hd Hmem (o & Ho & Hko & Hdo & Hso).
  simpl. unfold bind at 1, gets at 1. rewrite Hrun.
  simpl. unfold try_, ancestor_div, bind, gets, ret, raise. rewrite Hd. rewrite Hmem.
  unfold inputs_under, bind, gets, ret. fold (@bind (list Elem) (list Elem)).
  rewrite filterM_is_selected.
  match goal with
  | |- context [Nat.eqb (length (filter ?f ?l)) 0] =>
      assert (Hsel : In o (filter f l))
  end.
  { apply filter_In. split; [|exact Hso].
    apply filter_In. split; [assumption|]. rewrite Hko.
    apply existsb_exists. exists d. split; [assumption | apply Nat.eqb_refl]. }
  match goal with
  | |- context [Nat.eqb (length ?l) 0] => destruct l as [|x xs]; [contradiction|]
  end.
  reflexivity.
Qed.

Lemma radios_loop_stale_ancestor_witness :
  radios_loop [radio_el 1 "r" [] (Some "Maybe"%string) None] ["d0"%string] (Some 0%nat)
    (bot_state stale_anc_page default_profile [])
  = (Ok tt, bot_state stale_anc_page default_profile []).
Proof.
  rewrite (radios_loop_stale_ancestor (radio_el 1 "r" [] (Some "Maybe"%string) None) []
             ["d0"%string] 0%nat (bot_state stale_anc_page default_profile [])).
  - reflexivity.
  - reflexivity.
  - reflexivity.
  - reflexivity.
  - exists (with_selected true (radio_el 0 "q" [0%nat] (Some "Yes"%string) None)).
    split; [left; reflexivity|]. split; [reflexivity|]. split; [left; reflexivity|].
    reflexivity.
Defined.
Lemma label_stage_pure f s : exists r, label_stage f s = (Ok r, s).
Proof. unfold label_stage, try_, raise, ret. destruct f; eauto. Qed.

Lemma aria_stage_pure el s : exists r, aria_stage el s = (Ok r, s).
Proof. unfold aria_stage, try_, ret. eauto. Qed.

Lemma labelledby_stage_pure el s : exists r, labelledby_stage el s = (Ok r, s).
Proof.
  unfold labelledby_stage, try_, find_by_id, bind, gets, raise, ret.
  destruct (Py.truthy _); [|eauto]. destruct (negb (st_driver s)); [eauto|].
  destruct (map snd _); eauto.
Qed.

Lemma get_label_text_pure el s : exists t, get_label_text el s = (Ok t, s).
Proof.
  unfold get_label_text, bind.
  destruct (label_stage_pure (e_anc_label el) s) as [r1 ->]. destruct r1; [unfold ret; eauto|].
  destruct (label_stage_pure (e_prec_label el) s) as [r2 ->]. destruct r2; [unfold ret; eauto|].
  destruct (aria_stage_pure el s) as [r3 ->]. destruct r3; [unfold ret; eauto|].
  destruct (labelledby_stage_pure el s) as [r4 ->]. destruct r4; unfold ret; eauto.
Qed.

Lemma select_candidates_nil opts :
  Forall (fun o => Py.truthy (option_label o) = false) opts -> select_candidates opts = [].
Proof.
  intros H. unfold select_candidates.
  induction H as [|o os Ho _ IH]; [reflexivity|]. simpl. rewrite Ho. exact IH.
Qed.

(** In [_answer_selects] a select whose options all have a blank label
    ([value] or text, stripped) is left by [continue]: nothing is clicked
    or logged and no pacing sleep follows before the next select. *)
Theorem selects_loop_blank_select sel sels opts s :
  st_running s = true -> sel_options sel = Ok opts ->
  Forall (fun o => Py.truthy (option_label o) = false) opts ->
  selects_loop (sel :: sels) s = selects_loop sels s.
Proof.
  intros Hrun Ho Hb. cbn [selects_loop]. unfold bind at 1, gets at 1. rewrite Hrun.
  cbn [negb]. unfold bind at 1, try_ at 1, select_body, bind at 1, of_res.
  rewrite Ho. unfold ret at 1. rewrite (select_candidates_nil _ Hb). reflexivity.
Qed.

(** A multiple select with exactly one option of non-blank label makes
    [random.randint(2, 1)] raise [ValueError]: nothing is clicked, the
    error is logged as a select error, and the loop goes on with the
    pacing sleep. *)
Theorem selects_loop_multiple_single sel sels opts c s :
  st_running s = true -> sel_options sel = Ok opts -> select_candidates opts = [c] ->
  Py.truthy (opt_str (sel_multiple sel)) = true ->
  selects_loop (sel :: sels) s =
  (paced <- interruptible_sleep ;; if negb paced then ret tt else selects_loop sels)
    (add_event (EvLog "[Error]" "Select error") s).
Proof.
  intros Hrun Ho Hc Hm. cbn [selects_loop]. unfold bind at 1, gets at 1. rewrite Hrun.
  cbn [negb].
  assert (Hb : select_body sel s = (Raise ValueError, s)).
  { unfold select_body, bind, of_res. rewrite Ho. unfold ret at 1. rewrite Hc.
    destruct (get_label_text_pure (sel_el sel) s) as [t Ht]. rewrite Ht.
    rewrite Hm. reflexivity. }
  unfold bind at 1, try_ at 1. rewrite Hb. reflexivity.
Qed.

Lemma selects_loop_blank_select_witness :
  selects_loop [blank_select] (bot_state empty_page default_profile [])
  = (Ok tt, bot_state empty_page default_profile []).
Proof.
  rewrite (selects_loop_blank_select blank_select []
             [(text_el 11 OtherKind (Some ""%string), "  "%string);
              (text_el 12 OtherKind None, ""%string)]
             (bot_state empty_page default_profile []) eq_refl eq_refl).
  - reflexivity.
  - repeat constructor.
Defined.

Lemma selects_loop_multiple_single_witness :
  selects_loop [multi_single_select] (bot_state empty_page default_profile [])
  = (paced <- interruptible_sleep ;; if negb paced then ret tt else selects_loop [])
      (add_event (EvLog "[Error]" "Select error") (bot_state empty_page default_profile [])).
Proof.
  apply (selects_loop_multiple_single multi_single_select []
           [(text_el 21 OtherKind (Some "a"%string), "A"%string);
            (text_el 22 OtherKind None, " "%string)]
           ((text_el 21 OtherKind (Some "a"%string), "A"%string), "a"%string)); reflexivity.
Defined.

Lemma emits_ret {A} P (Q : A -> Prop) a : Q a -> emits P Q (ret a).
Proof. intros Hq s. exists []. rewrite app_nil_r. simpl. split; [|split]; auto. congruence. Qed.

Lemma emits_raise {A} P (Q : A -> Prop) e : emits P Q (raise e).
Proof. intros s. exists []. rewrite app_nil_r. simpl. split; [|split]; auto. discriminate. Qed.

Lemma emits_gets {A} P (f : St -> A) : emits P (fun _ => True) (gets f).
Proof. intros s. exists []. rewrite app_nil_r. simpl. auto. Qed.

Lemma emits_modify P f : (forall s, st_trace (f s) = st_trace s) -> emits P (fun _ => True) (modify f).
Proof. intros Hf s. exists []. rewrite app_nil_r. simpl. auto. Qed.

Lemma emits_emit P ev : P ev -> emits P (fun _ => True) (emit ev).
Proof. intros Hp s. exists [ev]. simpl. auto. Qed.

Lemma emits_bind {A B} P (Q : A -> Prop) (R : B -> Prop) m k :
  emits P Q m -> (forall a, Q a -> emits P R (k a)) -> emits P R (bind m k).
Proof.
  intros Hm Hk s. unfold bind. destruct (Hm s) as (evs & T & F & Hq).
  destruct (m s) as [[a|e] s1]; simpl in *.
  - destruct (Hk a (Hq a eq_refl) s1) as (evs2 & T2 & F2 & Hr).
    exists (evs ++ evs2). rewrite T2, T, app_assoc. split; [reflexivity|].
    split; [apply Forall_app; auto | exact Hr].
  - exists evs. split; [exact T|]. split; [exact F|discriminate].
Qed.

Lemma emits_try {A} P (Q : A -> Prop) m h :
  emits P Q m -> (forall e, emits P Q (h e)) -> emits P Q (try_ m h).
Proof.
  intros Hm Hh s. unfold try_. destruct (Hm s) as (evs & T & F & Hq).
  destruct (m s) as [[a|e] s1]; simpl in *.
  - exists evs. auto.
  - destruct (Hh e s1) as (evs2 & T2 & F2 & Hr).
    exists (evs ++ evs2). rewrite T2, T, app_assoc. split; [reflexivity|].
    split; [apply Forall_app; auto | exact Hr].
Qed.

Lemma emits_mono {A} (P P' : event -> Prop) (Q Q' : A -> Prop) m :
  (forall ev, P ev -> P' ev) -> (forall a, Q a -> Q' a) -> emits P Q m -> emits P' Q' m.
Proof.
  intros HP HQ Hm s. destruct (Hm s) as (evs & T & F & Hq). exists evs.
  split; [exact T|]. split; [eapply Forall_impl; eauto | auto].
Qed.

Lemma emits_of_res {A} P (r : res A) : emits P (fun a => r = Ok a) (of_res r).
Proof. destruct r; [apply emits_ret; reflexivity | apply emits_raise]. Qed.

Lemma emits_draw P : emits P (fun _ => True) draw.
Proof.
  intros s. exists []. rewrite app_nil_r. unfold draw.
  destruct (st_rng s); simpl; auto.
Qed.

Create HintDb emits.
#[local] Hint Resolve emits_gets emits_draw emits_raise : emits.

Ltac emits_steps :=
  repeat match goal with
  | |- emits _ _ (bind _ _) => apply (emits_bind _ (fun _ => True)); [|intros ? _]
  | |- emits _ _ (try_ _ _) => apply emits_try; [|intro]
  | |- emits _ _ (modify _) => apply emits_modify; intro; reflexivity
  | |- emits _ _ (emit _) => apply emits_emit; simpl
  | |- emits _ _ (log _ _) => apply emits_emit; simpl
  | |- emits _ _ (ret _) => apply emits_ret
  | |- emits _ _ (if ?b then _ else _) => destruct b
  | |- emits _ _ (match ?x with _ => _ end) => destruct x
  | |- emits _ _ (let (_, _) := ?p in _) => destruct p
  | |- _ => solve [eauto with emits]
  end.

Lemma emits_randbelow P n : emits P (fun _ => True) (randbelow n).
Proof. unfold randbelow. emits_steps; auto. Qed.

#[local] Hint Resolve emits_randbelow : emits.

Lemma quiet_emits {A} P (m : M A) : quiet m -> emits P (fun _ => True) m.
Proof. apply emits_mono; [contradiction | auto]. Qed.

Lemma quiet_randint a b : quiet (randint a b).
Proof. unfold quiet, randint, randrange, randbelow. emits_steps; auto. Qed.

Lemma quiet_intelligent_answer q o : quiet (intelligent_answer q o).
Proof.
  unfold quiet, intelligent_answer, ans_yesno, choices_yes_no, ans_numeric, randint, randrange,
    randbelow, ans_favorite, ans_opinion, ans_fallback, choice, random.
  emits_steps; auto.
Qed.

Lemma quiet_get_label_text el : quiet (get_label_text el).
Proof.
  intros s. destruct (get_label_text_pure el s) as [t ->]. exists []. rewrite app_nil_r.
  simpl. auto.
Qed.

Lemma emits_choice {A} P (xs : list A) : emits P (fun x => In x xs) (choice xs).
Proof.
  intros s. exists [].
  assert (T : st_trace (snd (choice xs s)) = st_trace s).
  { destruct xs as [|x0 xs']; [reflexivity|].
    destruct (draw_spec s) as (d & s1 & Hd & _ & T & _).
    unfold choice, randbelow, bind. rewrite Hd. exact T. }
  rewrite app_nil_r. split; [exact T|]. split; [auto|].
  intros a Ha. destruct (choice xs s) as [r s'] eqn:E. simpl in Ha. subst r.
  exact (choice_in _ _ _ _ E).
Qed.

Lemma emits_sample {A} P (pop : list A) k :
  emits P (fun picks => forall x, In x picks -> In x pop) (sample pop k).
Proof.
  intros s. destruct (sample_spec pop k s) as [Hneg Hok].
  destruct (Z_lt_le_dec k 0) as [Hk|Hk].
  - rewrite (Hneg (or_introl Hk)). exists []. rewrite app_nil_r. simpl. split; auto. split; [auto|discriminate].
  - destruct (Z_lt_le_dec (Z.of_nat (length pop)) k) as [Hk'|Hk'].
    + rewrite (Hneg (or_intror Hk')). exists []. rewrite app_nil_r. simpl. split; auto. split; [auto|discriminate].
    + destruct (Hok (conj Hk Hk')) as (picks & s' & E & _ & (rest & Hp) & _ & T & _).
      rewrite E. exists []. rewrite app_nil_r. simpl. split; [exact T|]. split; [auto|].
      intros a Ha x Hx. inversion Ha; subst.
      apply (Permutation_in _ (Permutation_sym Hp)). apply in_or_app. auto.
Qed.

Lemma emits_safe_click el :
  emits (clicks_only (fun n => n = e_no el)) (fun _ => True) (safe_click (Some el)).
Proof.
  unfold safe_click, driver_call, activate. emits_steps; auto.
Qed.

Lemma emits_interruptible_sleep ok : emits (clicks_only ok) (fun _ => True) interruptible_sleep.
Proof.
  unfold interruptible_sleep, rand_delay, uniform, frandom. emits_steps.
  intros s. simpl. destruct (sleep_events_spec l s) as [_ T]. exists (map EvSleep l).
  split; [exact T|]. split; [|auto].
  apply Forall_forall. intros x Hx. apply in_map_iff in Hx as [d [<- _]]. exact I.
Qed.

Lemma candidates_in opts o :
  In o (map fst (select_candidates opts)) -> In o opts /\ Py.truthy (option_label o) = true.
Proof. unfold select_candidates. rewrite map_map. simpl. rewrite map_id. apply filter_In. Qed.

Lemma emits_multi_loop (ok : nat -> Prop) chosen :
  (forall o, In o chosen -> ok (e_no (fst o))) ->
  emits (clicks_only ok) (fun _ => True) (multi_loop chosen).
Proof.
  induction chosen as [|o os IH]; intros Hin; cbn [multi_loop].
  - apply emits_ret; exact I.
  - emits_steps.
    + eapply emits_mono; [| |apply emits_safe_click]; [|auto].
      intros [] H; simpl in *; auto. subst. apply Hin. left; reflexivity.
    + apply emits_interruptible_sleep.
    + apply IH. intros o' H'. apply Hin. right; exact H'.
Qed.

Lemma emits_select_body sel :
  emits (clicks_only (fun n => exists opts o, sel_options sel = Ok opts /\ In o opts /\
                        Py.truthy (option_label o) = true /\ e_no (fst o) = n))
        (fun _ => True) (select_body sel).
Proof.
  unfold select_body. apply (emits_bind _ _ _ _ _ (emits_of_res _ _)). intros opts Hopts.
  destruct (select_candidates opts) as [|c cs] eqn:Hc; [apply emits_ret; exact I|].
  rewrite <- Hc.
  apply (emits_bind _ _ _ _ _ (quiet_emits _ _ (quiet_get_label_text _))). intros q0 _.
  destruct (Py.truthy (opt_str (sel_multiple sel))).
  - apply (emits_bind _ _ _ _ _ (quiet_emits _ _ (quiet_randint _ _))). intros count _.
    apply (emits_bind _ _ _ _ _ (emits_sample _ _ _)). intros chosen Hch.
    apply emits_multi_loop. intros o Ho. apply Hch in Ho.
    apply candidates_in in Ho as [Ho Ht]. eauto 6.
  - apply (emits_bind _ _ _ _ _ (quiet_emits _ _ (quiet_intelligent_answer _ _))). intros pick _.
    apply (emits_bind _ (fun x => In x (map fst (select_candidates opts)))).
    + destruct (find _ _) as [c'|] eqn:Hf.
      * apply emits_ret. apply find_some in Hf as [Hf _]. apply in_map. exact Hf.
      * apply emits_choice.
    + intros o Ho. apply candidates_in in Ho as [Ho Ht].
      apply (emits_bind _ (fun _ => True)).
      * eapply emits_mono; [| |apply emits_safe_click]; [|auto].
        intros [] H; simpl in *; auto. subst. eauto 6.
      * intros _ _. emits_steps; exact I.
Qed.

Lemma emits_selects_loop all sels :
  (forall sel, In sel sels -> In sel all) ->
  emits (clicks_only (option_clicked all)) (fun _ => True) (selects_loop sels).
Proof.
  induction sels as [|sel sels IH]; intros Hin; cbn [selects_loop].
  - apply emits_ret; exact I.
  - assert (IH' : emits (clicks_only (option_clicked all)) (fun _ => True) (selects_loop sels))
      by (apply IH; intros x Hx; apply Hin; right; exact Hx).
    emits_steps.
    1: { eapply emits_mono; [| |apply emits_select_body]; [|auto].
         intros [] H; simpl in *; auto. destruct H as (opts & o & H1 & H2 & H3 & H4).
         exists sel, opts, o. auto 6 using in_eq. }
    all: first [exact I | exact IH' | apply emits_interruptible_sleep].
Qed.

(** [_answer_selects] only clicks options, of the selects found, whose
    label is not blank; it never clears or types into a field. *)
Theorem answer_selects_clicks_options sels s :
  exists evs, st_trace (snd (answer_selects (Ok sels) s)) = st_trace s ++ evs /\
    Forall (clicks_only (option_clicked sels)) evs.
Proof.
  destruct (emits_selects_loop sels sels (fun x H => H) s) as (evs & T & F & _).
  exists evs. split; [exact T | exact F].
Qed.

Lemma emits_click_first (ok : nat -> Prop) msg btns :
  (forall b, In b btns -> ok (e_no b)) -> emits (clicks_only ok) (fun _ => True) (click_first msg btns).
Proof.
  induction btns as [|b bs IH]; intros Hin; cbn [click_first].
  - apply emits_ret; exact I.
  - apply (emits_bind _ (fun _ => True)).
    + eapply emits_mono; [| |apply emits_safe_click]; [|auto].
      intros [] H; simpl in *; auto. subst. apply Hin. left; reflexivity.
    + intros c _. destruct c.
      * emits_steps; exact I.
      * apply IH. intros b' H'. apply Hin. right; exact H'.
Qed.

Lemma emits_per_keyword (ok : nat -> Prop) query msg ts :
  (forall t, In t ts -> emits (clicks_only ok) (fun l => forall b, In b l -> ok (e_no b)) (query t)) ->
  emits (clicks_only ok) (fun _ => True) (per_keyword query msg ts).
Proof.
  induction ts as [|t ts IH]; intros Hq; cbn [per_keyword].
  - apply emits_ret; exact I.
  - apply (emits_bind _ _ _ _ _ (Hq t (in_eq _ _))). intros btns Hb.
    apply (emits_bind _ (fun _ => True)); [apply emits_click_first; exact Hb|].
    intros c _. destruct c; [apply emits_ret; exact I|].
    apply IH. intros t' H'. apply Hq. right; exact H'.
Qed.

Lemma emits_form_buttons_loop (ok : nat -> Prop) bs :
  (forall b, In b bs -> Py.truthy (snd b) = true ->
     existsb (fun x => Py.contains x (Py.lower (snd b))) NEXT_BUTTON_TEXTS = true ->
     ok (e_no (fst b))) ->
  emits (clicks_only ok) (fun _ => True) (form_buttons_loop bs).
Proof.
  induction bs as [|b bs IH]; intros Hin; cbn [form_buttons_loop].
  - apply emits_ret; exact I.
  - assert (IH' : emits (clicks_only ok) (fun _ => True) (form_buttons_loop bs))
      by (apply IH; intros b' H'; apply Hin; right; exact H').
    destruct (Py.truthy (snd b)) eqn:Ht; [|exact IH'].
    destruct (existsb _ _) eqn:He; [|exact IH'].
    apply (emits_bind _ (fun _ => True)).
    + eapply emits_mono; [| |apply emits_safe_click]; [|auto].
      intros [] H; simpl in *; auto. subst. apply Hin; [left; reflexivity | exact Ht | exact He].
    + intros c _. destruct c; [emits_steps; exact I | exact IH'].
Qed.

Lemma emits_forms_loop (ok : nat -> Prop) fs :
  (forall sub b, In (Ok sub) fs -> In b sub -> Py.truthy (snd b) = true ->
     existsb (fun x => Py.contains x (Py.lower (snd b))) NEXT_BUTTON_TEXTS = true ->
     ok (e_no (fst b))) ->
  emits (clicks_only ok) (fun _ => True) (forms_loop fs).
Proof.
  induction fs as [|f fs IH]; intros Hin; cbn [forms_loop].
  - apply emits_ret; exact I.
  - apply (emits_bind _ _ _ _ _ (emits_of_res _ _)). intros sub Hs. subst f.
    apply (emits_bind _ (fun _ => True)).
    + apply emits_form_buttons_loop. intros b Hb. apply (Hin sub); [left; reflexivity | exact Hb].
    + intros c _. destruct c; [apply emits_ret; exact I|].
      apply IH. intros sub' b H1. apply (Hin sub'). right; exact H1.
Qed.

(** [_click_next_if_any] only clicks a [<button>] whose normalized text
    contains a keyword of [NEXT_BUTTON_TEXTS], an [<input type='submit'>]
    whose [value] contains one, or a form button whose non-empty text
    contains one; it never clears or types into a field. *)
Theorem click_next_clicks_only_keyword_buttons np s :
  exists evs, st_trace (snd (click_next_if_any np s)) = st_trace s ++ evs /\
    Forall (clicks_only (next_target np)) evs.
Proof.
  assert (H : emits (clicks_only (next_target np)) (fun _ => True) (click_next_if_any np)).
  { unfold click_next_if_any. apply emits_try; [|intros e; emits_steps; exact I].
    apply (emits_bind _ (fun _ => True)).
    { apply emits_per_keyword. intros t Ht. unfold button_query.
      apply (emits_bind _ _ _ _ _ (emits_of_res _ _)). intros bs Hbs. apply emits_ret.
      intros b Hb. apply in_map_iff in Hb as (b' & <- & Hb'). apply filter_In in Hb' as [H1 H2].
      left. exists bs, b', t. auto. }
    intros c1 _. destruct c1; [apply emits_ret; exact I|].
    apply (emits_bind _ (fun _ => True)).
    { apply emits_per_keyword. intros t Ht. unfold submit_query.
      apply (emits_bind _ _ _ _ _ (emits_of_res _ _)). intros ss Hss. apply emits_ret.
      intros b Hb. apply filter_In in Hb as [H1 H2].
      right; left. exists ss, b, t. auto. }
    intros c2 _. destruct c2; [apply emits_ret; exact I|].
    apply emits_try; [|intros e; apply emits_ret; exact I].
    apply (emits_bind _ _ _ _ _ (emits_of_res _ _)). intros fs Hfs.
    apply emits_forms_loop. intros sub b H1 H2 H3 H4. right; right. exists fs, sub, b. repeat split; auto. }
  destruct (H s) as (evs & T & F & _). exists evs. auto.
Qed.

Lemma filter_none {A} (f : A -> bool) l : (forall x, In x l -> f x = false) -> filter f l = [].
Proof.
  induction l as [|x l IH]; intros H; [reflexivity|]. simpl. rewrite (H x (in_eq _ _)).
  apply IH. intros y Hy. apply H. right; exact Hy.
Qed.

Lemma per_keyword_none query msg ts s :
  (forall t, In t ts -> query t s = (Ok [], s)) -> per_keyword query msg ts s = (Ok false, s).
Proof.
  induction ts as [|t ts IH]; intros Hq; [reflexivity|].
  cbn [per_keyword]. unfold bind at 1. rewrite (Hq t (in_eq _ _)).
  unfold bind at 1. cbn [click_first]. unfold ret at 1. apply IH.
  intros t' H'. apply Hq. right; exact H'.
Qed.

Lemma form_buttons_loop_none bs s :
  (forall b, In b bs ->
     (Py.truthy (snd b) && existsb (fun x => Py.contains x (Py.lower (snd b))) NEXT_BUTTON_TEXTS)%bool
     = false) ->
  form_buttons_loop bs s = (Ok false, s).
Proof.
  induction bs as [|b bs IH]; intros Hb; [reflexivity|].
  cbn [form_buttons_loop]. rewrite (Hb b (in_eq _ _)). apply IH.
  intros b' H'. apply Hb. right; exact H'.
Qed.

Lemma forms_loop_none fs s :
  (forall sub b, In (Ok sub) fs -> In b sub ->
     (Py.truthy (snd b) && existsb (fun x => Py.contains x (Py.lower (snd b))) NEXT_BUTTON_TEXTS)%bool
     = false) ->
  forms_loop fs s = (Ok false, s) \/ exists e, forms_loop fs s = (Raise e, s).
Proof.
  induction fs as [|f fs IH]; intros Hf; [left; reflexivity|].
  destruct f as [sub|e].
  - assert (E : forms_loop (Ok sub :: fs) s = forms_loop fs s).
    { cbn [forms_loop]. unfold of_res, bind at 1, ret at 1, bind at 1.
      rewrite (form_buttons_loop_none sub s (fun b Hb => Hf sub b (in_eq _ _) Hb)).
      reflexivity. }
    rewrite E. apply IH. intros sub' b H1. apply (Hf sub'). right; exact H1.
  - right. exists e. reflexivity.
Qed.

(** When no button, submit input or form button matches a keyword,
    [_click_next_if_any] returns False and changes nothing, also when the
    buttons of a form cannot be read. *)
Theorem click_next_no_match np s bs ss fs :
  np_buttons np = Ok bs -> np_submits np = Ok ss -> np_forms np = Ok fs ->
  (forall b t, In b bs -> In t NEXT_BUTTON_TEXTS ->
     Py.contains t (Py.lower (normalize_space (snd b))) = false) ->
  (forall b t, In b ss -> In t NEXT_BUTTON_TEXTS ->
     Py.contains t (Py.lower (opt_str (e_value b))) = false) ->
  (forall sub b, In (Ok sub) fs -> In b sub ->
     (Py.truthy (snd b) && existsb (fun x => Py.contains x (Py.lower (snd b))) NEXT_BUTTON_TEXTS)%bool
     = false) ->
  click_next_if_any np s = (Ok false, s).
Proof.
  intros Hb Hs Hf Nb Ns Nf. unfold click_next_if_any, try_ at 1, bind at 1.
  rewrite per_keyword_none.
  2: { intros t Ht. unfold button_query, bind, of_res. rewrite Hb. unfold ret.
       rewrite filter_none; [reflexivity|].
       intros b Hb'. apply Nb; assumption. }
  unfold bind at 1. rewrite per_keyword_none.
  2: { intros t Ht. unfold submit_query, bind, of_res. rewrite Hs. unfold ret.
       rewrite filter_none; [reflexivity|].
       intros b Hb'. apply Ns; assumption. }
  unfold try_, bind, of_res. rewrite Hf. unfold ret at 1.
  destruct (forms_loop_none fs s Nf) as [E|[e E]]; rewrite E; reflexivity.
Qed.

Lemma safe_click_direct el s : e_click_ok el = true ->
  safe_click (Some el) s =
  (Ok true, set_page (click_effect el (st_page s)) (add_event (EvStage (e_no el) 1) s)).
Proof.
  intros H. unfold safe_click, driver_call, try_, bind, emit, modify, activate, ret.
  rewrite H. reflexivity.
Qed.

Lemma per_keyword_skip query msg pre ts s :
  (forall u, In u pre -> query u s = (Ok [], s)) ->
  per_keyword query msg (pre ++ ts) s = per_keyword query msg ts s.
Proof.
  induction pre as [|u pre IH]; intros Hq; [reflexivity|].
  cbn [app per_keyword]. unfold bind at 1. rewrite (Hq u (in_eq _ _)).
  unfold bind at 1. cbn [click_first]. unfold ret at 1. apply IH.
  intros u' H'. apply Hq. right; exact H'.
Qed.

(** Keywords take precedence over document order: when no button matches
    an earlier keyword of [NEXT_BUTTON_TEXTS], the first button in document
    order matching keyword [t] is clicked, and if its direct click
    succeeds the search returns True having recorded only that click and
    its log line. *)
Theorem click_next_keyword_priority np s bs pre t post b rest :
  np_buttons np = Ok bs -> NEXT_BUTTON_TEXTS = pre ++ t :: post ->
  (forall b' u, In b' bs -> In u pre ->
     Py.contains u (Py.lower (normalize_space (snd b'))) = false) ->
  filter (fun b' => Py.contains t (Py.lower (normalize_space (snd b')))) bs = b :: rest ->
  e_click_ok (fst b) = true ->
  exists s', click_next_if_any np s = (Ok true, s') /\
    st_trace s' = st_trace s ++ [EvStage (e_no (fst b)) 1; EvLog "[Next]" "Clicked Next/Submit"].
Proof.
  intros Hb Hn Hpre Hf Hok. unfold click_next_if_any, try_ at 1, bind at 1. rewrite Hn.
  rewrite per_keyword_skip.
  2: { intros u Hu. unfold button_query, bind, of_res. rewrite Hb. unfold ret.
       rewrite filter_none; [reflexivity|]. intros b' Hb'. apply Hpre; assumption. }
  cbn [per_keyword]. unfold bind at 1, button_query, bind at 1, of_res. rewrite Hb.
  unfold ret at 1. rewrite Hf. cbv [ret]. cbn [map click_first]. unfold bind.
  rewrite (safe_click_direct _ _ Hok).
  eexists. split; [reflexivity|]. simpl. rewrite <- app_assoc. reflexivity.
Qed.

Lemma click_next_no_match_witness :
  click_next_if_any no_next_page (bot_state empty_page default_profile [])
  = (Ok false, bot_state empty_page default_profile []).
Proof.
  apply (click_next_no_match no_next_page _ [(button_el 1, "Back"%string)]
           [with_value (Some "Search"%string) (button_el 2)]
           [Ok [(button_el 3, "Cancel"%string)]; Raise WebDriverError]).
  - reflexivity.
  - reflexivity.
  - reflexivity.
  - intros b t Hb Ht. destruct Hb as [<-|[]].
    repeat (destruct Ht as [<-|Ht]; [reflexivity|]). destruct Ht.
  - intros b t Hb Ht. destruct Hb as [<-|[]].
    repeat (destruct Ht as [<-|Ht]; [reflexivity|]). destruct Ht.
  - intros sub b Hsub Hb. destruct Hsub as [H|[H|[]]]; inversion H; subst.
    destruct Hb as [<-|[]]. reflexivity.
Defined.

Lemma click_next_keyword_priority_witness :
  exists s', click_next_if_any priority_page (bot_state empty_page default_profile []) = (Ok true, s') /\
    st_trace s' = [] ++ [EvStage 2 1; EvLog "[Next]" "Clicked Next/Submit"].
Proof.
  apply (click_next_keyword_priority priority_page (bot_state empty_page default_profile [])
           [(button_el 1, "Continue"%string); (button_el 2, " Submit  answers "%string)]
           ["next"%string] "submit"%string (tl (tl NEXT_BUTTON_TEXTS))
           (button_el 2, " Submit  answers "%string) []).
  - reflexivity.
  - reflexivity.
  - intros b u Hb Hu. destruct Hu as [<-|[]].
    destruct Hb as [<-|[<-|[]]]; reflexivity.
  - reflexivity.
  - reflexivity.
Defined.

Lemma alive_multi_loop chosen : keeps_alive (multi_loop chosen).
Proof.
  induction chosen as [|o os IH]; cbn [multi_loop]; alive_steps;
    first [apply alive_safe_click | apply alive_interruptible_sleep].
Qed.

Lemma alive_select_body sel : keeps_alive (select_body sel).
Proof.
  unfold select_body. alive_steps;
    first [apply alive_get_label_text | apply alive_multi_loop | apply alive_safe_click
          | apply alive_intelligent_answer | apply alive_sample].
Qed.

Lemma alive_selects_loop sels : keeps_alive (selects_loop sels).
Proof.
  induction sels as [|sel sels IH]; cbn [selects_loop]; alive_steps;
    first [apply alive_select_body | apply alive_interruptible_sleep].
Qed.

Lemma alive_click_first msg btns : keeps_alive (click_first msg btns).
Proof. induction btns; cbn [click_first]; alive_steps; apply alive_safe_click. Qed.

Lemma alive_per_keyword query msg ts :
  (forall t, keeps_alive (query t)) -> keeps_alive (per_keyword query msg ts).
Proof.
  intros Hq. induction ts; cbn [per_keyword]; alive_steps; auto using alive_click_first.
Qed.

Lemma alive_form_buttons_loop bs : keeps_alive (form_buttons_loop bs).
Proof. induction bs; cbn [form_buttons_loop]; alive_steps; apply alive_safe_click. Qed.

Lemma alive_forms_loop fs : keeps_alive (forms_loop fs).
Proof. induction fs; cbn [forms_loop]; alive_steps; apply alive_form_buttons_loop. Qed.

Lemma alive_click_next_if_any np : keeps_alive (click_next_if_any np).
Proof.
  unfold click_next_if_any. alive_steps;
    first [apply alive_forms_loop
          | apply alive_per_keyword; intros t; unfold button_query, submit_query; alive_steps].
Qed.

(** [_thread_main] with the handlers of [SurveyBot], including
    [_answer_selects] and [_click_next_if_any], lets no exception out and
    never changes [alive], whatever the page: the thread ends only when
    [stop_and_close] clears [alive]. *)
Theorem thread_main_bot_never_stops sels np fuel s :
  let H := bot_handlers (answer_selects sels) (click_next_if_any np) in
  fst (thread_main H fuel s) = Ok tt /\ st_alive (snd (thread_main H fuel s)) = st_alive s.
Proof.
  intros H.
  assert (Hsel : keeps_alive (answer_selects sels))
    by (unfold answer_selects; alive_steps; apply alive_selects_loop).
  destruct (bot_handlers_keep_alive _ _ Hsel (alive_click_next_if_any np))
    as (A1 & A2 & A3 & A4 & A5 & A6 & A7).
  exact (thread_main_total H A1 A2 A3 A4 A5 A6 A7 fuel s).
Qed.

Lemma filter_set_nth {A} (f : A -> bool) (l : list A) i w w0 :
  nth_error l i = Some w0 ->
  (length (filter f (set_nth i w l)) + (if f w0 then 1 else 0) =
   length (filter f l) + (if f w then 1 else 0))%nat.
Proof.
  revert i. induction l as [|x l IH]; intros [|i] H; simpl in *; try discriminate.
  - inversion H; subst. destruct (f w0), (f w); simpl; lia.
  - specialize (IH i H). destruct (f x); simpl; lia.
Qed.

Lemma life_inv_step a l l' : a <> Stop -> life_step a l l' -> life_inv l -> life_inv l'.
Proof.
  intros Ha Hs [H1 H2]. unfold life_inv, live_workers in *.
  inversion Hs; subst; simpl in *.
  - unfold life_start. destruct (lf_alive l) eqn:Ea; simpl.
    + split; [exact H1|discriminate].
    + rewrite filter_app, length_app. simpl. rewrite H2 by reflexivity. split; [lia|discriminate].
  - split; [exact H1|exact H2].
  - congruence.
  - pose proof (filter_set_nth (fun w => match w with WDone => false | _ => true end) _ _ WDone _ H) as E.
    simpl in E. split; [lia|intros; lia].
  - pose proof (filter_set_nth (fun w => match w with WDone => false | _ => true end) _ _ WPass _ H) as E.
    simpl in E. split; [lia|intros Hf; apply H2 in Hf; lia].
  - pose proof (filter_set_nth (fun w => match w with WDone => false | _ => true end) _ _ WTest _ H) as E.
    simpl in E. split; [lia|intros Hf; apply H2 in Hf; lia].
  - pose proof (filter_set_nth (fun w => match w with WDone => false | _ => true end) _ _ WTest _ H) as E.
    simpl in E. split; [lia|intros Hf; apply H2 in Hf; lia].
Qed.

Lemma life_inv_run As l l' : life_run As l l' -> ~ In Stop As -> life_inv l -> life_inv l'.
Proof.
  induction 1 as [l|a As l1 l2 l3 Hs _ IH]; intros Hn Hi; [exact Hi|].
  apply IH; [intros Hin; apply Hn; right; exact Hin|].
  apply (life_inv_step a l1 l2); [intros ->; apply Hn; left; reflexivity | exact Hs | exact Hi].
Qed.

(** As long as [stop_and_close] is not called, [start] never runs a second
    worker: from [SurveyBot.__init__], whatever the interleaving of
    [start], [pause] and the workers' steps, at most one worker thread is
    unfinished. *)
Theorem life_single_worker_without_stop As l :
  life_run As life_init l -> ~ In Stop As -> (live_workers l <= 1)%nat.
Proof.
  intros Hr Hn. apply (life_inv_run As life_init l Hr Hn).
  split; [apply Nat.le_0_l | reflexivity].
Qed.

(** [stop_and_close] does not wait for a worker in the middle of a pass,
    and [start] spawns a new worker when [alive] is false: after stop and
    start during a pass, the old worker finishes its pass, sees [alive]
    true again and starts another pass beside the new worker. *)
Theorem life_stop_start_overlap l :
  lf_alive l = true -> lf_running l = true -> lf_workers l = [WPass] ->
  exists l', life_run [Stop; Start; Worker 1; Worker 0; Worker 0] l l' /\
    lf_alive l' = true /\ lf_workers l' = [WPass; WPass].
Proof.
  intros Ha Hr Hw.
  set (l1 := life_stop_and_close l).
  assert (W1 : lf_workers l1 = [WPass] /\ lf_alive l1 = false)
    by (unfold l1, life_stop_and_close; destruct (lf_driver l); simpl; auto).
  set (l2 := life_start l1).
  assert (W2 : lf_workers l2 = [WPass; WTest] /\ lf_alive l2 = true /\ lf_running l2 = true)
    by (unfold l2, life_start; destruct W1 as [-> ->]; simpl; auto).
  destruct W2 as (W2 & A2 & R2).
  set (l3 := set_worker 1 WPass l2).
  set (l4 := set_worker 0 WTest l3).
  set (l5 := set_worker 0 WPass l4).
  exists l5. split; [|unfold l5, l4, l3, set_worker; simpl; rewrite W2; auto].
  apply (LR_cons Stop _ l l1); [constructor|].
  apply (LR_cons Start _ l1 l2); [constructor|].
  apply (LR_cons (Worker 1) _ l2 l3); [apply LS_enter; [rewrite W2; reflexivity|auto|auto]|].
  apply (LR_cons (Worker 0) _ l3 l4);
    [apply LS_pass_end; unfold l3, set_worker; simpl; rewrite W2; reflexivity|].
  apply (LR_cons (Worker 0) _ l4 l5); [|constructor].
  apply LS_enter; unfold l4, l3, set_worker; simpl; [rewrite W2; reflexivity|auto|auto].
Qed.

Lemma life_stop_start_overlap_witness :
  exists l', life_run [Stop; Start; Worker 1; Worker 0; Worker 0] (mkLife true true true [WPass] []) l' /\
    lf_alive l' = true /\ lf_workers l' = [WPass; WPass].
Proof. apply life_stop_start_overlap; reflexivity. Defined.

Lemma life_single_worker_without_stop_witness :
  exists l, life_run [Start; Worker 0; Pause; Worker 0; Start] life_init l /\
    ~ In Stop [Start; Worker 0; Pause; Worker 0; Start] /\ (live_workers l <= 1)%nat.
Proof.
  eexists. split.
  - eapply LR_cons; [apply LS_start|].
    eapply LR_cons; [apply LS_enter; reflexivity|].
    eapply LR_cons; [apply LS_pause|].
    eapply LR_cons; [apply LS_pass_end; reflexivity|].
    eapply LR_cons; [apply LS_start|].
    apply LR_nil.
  - assert (Hn : ~ In Stop [Start; Worker 0; Pause; Worker 0; Start])
      by (simpl; intuition discriminate).
    split; [exact Hn|].
    eapply life_single_worker_without_stop; [|exact Hn].
    eapply LR_cons; [apply LS_start|].
    eapply LR_cons; [apply LS_enter; reflexivity|].
    eapply LR_cons; [apply LS_pause|].
    eapply LR_cons; [apply LS_pass_end; reflexivity|].
    eapply LR_cons; [apply LS_start|].
    apply LR_nil.
Defined.

Lemma sample_picks_distinct_witness :
  (length [1; 2; 3] <= 21)%nat /\
  ((2 < 0 \/ Z.of_nat (length [1; 2; 3]) < 2 ->
    sample [1; 2; 3] 2 (bot_state empty_page default_profile [7]) =
    (Raise ValueError, bot_state empty_page default_profile [7])) /\
   (0 <= 2 <= Z.of_nat (length [1; 2; 3]) ->
    exists picks s', sample [1; 2; 3] 2 (bot_state empty_page default_profile [7]) = (Ok picks, s') /\
      Z.of_nat (length picks) = 2 /\ (exists rest, Permutation [1; 2; 3] (picks ++ rest)) /\
      (forall x, In x picks -> In x [1; 2; 3]) /\ (NoDup [1; 2; 3] -> NoDup picks) /\
      st_page s' = st_page (bot_state empty_page default_profile [7]) /\
      st_trace s' = st_trace (bot_state empty_page default_profile [7]))).
Proof.
  assert (H : (length [1; 2; 3] <= 21)%nat) by (simpl; lia).
  split; [exact H|].
  exact (sample_picks_distinct [1; 2; 3] 2 (bot_state empty_page default_profile [7]) H).
Defined.

(* ------------------------------------------------------------------ *)
(** ** C9: group skipping and the commit bound of [_answer_radios] *)

Lemma commits_app a b : commits (a ++ b) = (commits a + commits b)%nat.
Proof. unfold commits. rewrite filter_app, length_app. reflexivity. Qed.

Lemma cl_ret {A} d k (Q : A -> Prop) a : Q a -> commits_le d k Q (ret a).
Proof. intros Hq s Hs. exists []. rewrite app_nil_r. unfold commits. simpl. repeat split; auto; try lia. intros a0 H; injection H as <-; exact Hq. Qed.

Lemma cl_raise {A} d k (Q : A -> Prop) e : commits_le d k Q (raise e).
Proof. intros s Hs. exists []. rewrite app_nil_r. unfold commits. simpl. repeat split; auto; try lia. discriminate. Qed.

Lemma cl_gets {A} d k (f : St -> A) : commits_le d k (fun _ => True) (gets f).
Proof. intros s Hs. exists []. rewrite app_nil_r. unfold commits. simpl. repeat split; auto. lia. Qed.

Lemma cl_modify d k f :
  (forall s, st_trace (f s) = st_trace s /\ pg_divs (st_page (f s)) = pg_divs (st_page s)) ->
  commits_le d k (fun _ => True) (modify f).
Proof.
  intros Hf s Hs. destruct (Hf s) as [T D]. exists []. rewrite app_nil_r. unfold commits. simpl.
  repeat split; auto; try lia. congruence.
Qed.

Lemma cl_emit d k ev : is_commit ev = false -> commits_le d k (fun _ => True) (emit ev).
Proof.
  intros Hc s Hs. exists [ev]. simpl. unfold commits. simpl. rewrite Hc. simpl.
  repeat split; auto. lia.
Qed.

Lemma cl_commit d n : commits_le d 1 (fun _ => True) (emit (EvStage n 1)).
Proof. intros s Hs. exists [EvStage n 1]. simpl. repeat split; auto. Qed.

Lemma cl_draw d k : commits_le d k (fun _ => True) draw.
Proof.
  intros s Hs. exists []. rewrite app_nil_r. unfold draw, commits.
  destruct (st_rng s); simpl; repeat split; auto; lia.
Qed.

Lemma cl_bind {A B} d k1 k2 (Q : A -> Prop) (R : B -> Prop) m f :
  commits_le d k1 Q m -> (forall a, Q a -> commits_le d k2 R (f a)) ->
  commits_le d (k1 + k2) R (bind m f).
Proof.
  intros Hm Hf s Hs. unfold bind. destruct (Hm s Hs) as (evs & T & C & D & Hq).
  destruct (m s) as [[a|e] s1]; simpl in *.
  - destruct (Hf a (Hq a eq_refl) s1 D) as (evs2 & T2 & C2 & D2 & Hr).
    exists (evs ++ evs2)%list. rewrite T2, T, app_assoc, commits_app.
    repeat split; auto. lia.
  - exists evs. repeat split; auto; try lia. discriminate.
Qed.

Lemma cl_bind0 {A B} d k (Q : A -> Prop) (R : B -> Prop) m f :
  commits_le d 0 Q m -> (forall a, Q a -> commits_le d k R (f a)) ->
  commits_le d k R (bind m f).
Proof. exact (cl_bind d 0 k Q R m f). Qed.

Lemma cl_try {A} d k1 k2 (Q : A -> Prop) m h :
  commits_le d k1 Q m -> (forall e, commits_le d k2 Q (h e)) ->
  commits_le d (k1 + k2) Q (try_ m h).
Proof.
  intros Hm Hh s Hs. unfold try_. destruct (Hm s Hs) as (evs & T & C & D & Hq).
  destruct (m s) as [[a|e] s1]; simpl in *.
  - exists evs. repeat split; auto. lia.
  - destruct (Hh e s1 D) as (evs2 & T2 & C2 & D2 & Hr).
    exists (evs ++ evs2)%list. rewrite T2, T, app_assoc, commits_app.
    repeat split; auto. lia.
Qed.

Lemma cl_try0 {A} d (Q : A -> Prop) m h :
  commits_le d 0 Q m -> (forall e, commits_le d 0 Q (h e)) -> commits_le d 0 Q (try_ m h).
Proof. exact (cl_try d 0 0 Q m h). Qed.

Lemma cl_mono {A} d k k' (Q Q' : A -> Prop) m :
  (k <= k')%nat -> (forall a, Q a -> Q' a) -> commits_le d k Q m -> commits_le d k' Q' m.
Proof.
  intros Hk HQ Hm s Hs. destruct (Hm s Hs) as (evs & T & C & D & Hq).
  exists evs. repeat split; auto. lia.
Qed.

Lemma click_effect_divs el pg : pg_divs (click_effect el pg) = pg_divs pg.
Proof. unfold click_effect. destruct (e_kind el); reflexivity. Qed.

(** Steps through a computation that makes no commit. *)
Ltac cl_steps :=
  repeat match goal with
  | |- commits_le _ _ _ (bind _ _) => apply (cl_bind0 _ _ (fun _ => True)); [|intros ? _]
  | |- commits_le _ 0 _ (try_ _ _) => apply cl_try0; [|intro]
  | |- commits_le _ _ _ (modify _) =>
      apply cl_modify; intro; simpl; rewrite ?click_effect_divs; split; reflexivity
  | |- commits_le _ _ _ (emit _) => apply cl_emit; reflexivity
  | |- commits_le _ _ _ (log _ _) => apply cl_emit; reflexivity
  | |- commits_le _ _ _ (ret _) => apply cl_ret; exact I
  | |- commits_le _ _ _ (raise _) => apply cl_raise
  | |- commits_le _ _ _ (gets _) => apply cl_gets
  | |- commits_le _ _ _ draw => apply cl_draw
  | |- commits_le _ _ _ (randbelow _) => unfold randbelow
  | |- commits_le _ _ _ (if ?b then _ else _) => destruct b
  | |- commits_le _ _ _ (match ?x with _ => _ end) => destruct x
  | |- commits_le _ _ _ (let (_, _) := ?p in _) => destruct p
  end.

(** Every [_safe_click] makes one commit: stage 1 is attempted once. *)
Lemma cl_safe_click d el : commits_le d 1 (fun _ => True) (safe_click (Some el)).
Proof.
  unfold safe_click, driver_call, activate.
  apply (cl_mono d (1 + 0) 1 (fun _ => True)); [lia|auto|].
  apply cl_try.
  - apply (cl_mono d (1 + 0) (1 + 0) (fun _ => True)); [lia|auto|].
    apply (cl_bind _ _ _ (fun _ => True)); [|intros ? _].
    + apply (cl_mono d (1 + 0) 1 (fun _ => True)); [lia|auto|].
      apply (cl_bind _ _ _ (fun _ => True)); [apply cl_commit|intros ? _]. cl_steps.
    + cl_steps.
  - intros e. cl_steps.
Qed.

Lemma cl_intelligent_answer d q o : commits_le d 0 (fun _ => True) (intelligent_answer q o).
Proof.
  unfold intelligent_answer, ans_yesno, choices_yes_no, ans_numeric, randint, randrange,
    randbelow, ans_favorite, ans_opinion, ans_fallback, choice, random.
  cl_steps.
Qed.

Lemma cl_get_label_text d el : commits_le d 0 (fun _ => True) (get_label_text el).
Proof.
  intros s Hs. destruct (get_label_text_pure el s) as [t ->]. exists []. rewrite app_nil_r.
  simpl. repeat split; auto.
Qed.

Lemma cl_radio_opt_text d o : commits_le d 0 (fun _ => True) (radio_opt_text o).
Proof.
  unfold radio_opt_text. cl_steps. apply cl_get_label_text.
Qed.

Lemma cl_mapM_radio_opt_text d opts : commits_le d 0 (fun _ => True) (mapM radio_opt_text opts).
Proof.
  induction opts as [|o os IH]; simpl; cl_steps; [apply cl_radio_opt_text | exact IH].
Qed.

Lemma cl_choice {A} d (xs : list A) : commits_le d 0 (fun _ => True) (choice xs).
Proof. unfold choice, randbelow. cl_steps. Qed.

Lemma cl_interruptible_sleep d k : commits_le d k (fun _ => True) interruptible_sleep.
Proof.
  unfold interruptible_sleep, rand_delay, uniform, frandom. cl_steps.
  intros s Hs. simpl. destruct (sleep_events_spec l s) as [P T]. exists (map EvSleep l).
  rewrite P. repeat split; auto.
  assert (commits (map EvSleep l) = 0%nat) as ->; [|lia].
  unfold commits. clear. induction l as [|x l IH]; simpl; auto.
Qed.

Lemma group_id_step divs r anc s :
  pg_divs (st_page s) = divs ->
  try_ (d <- ancestor_div r ;; dv <- div_of d ;;
        ret (Py.or_str (d_icid dv) (Py.or_str (d_id dv) (d_hash dv)), Some d))
       (fun _ => ret (e_hash r, anc)) s = (Ok (group_id divs r anc), s).
Proof.
  intros <-. unfold try_, ancestor_div, div_of, group_id, bind, gets, ret.
  destruct (e_divs r); reflexivity.
Qed.

Lemma group_opts_step pg r anc s :
  st_page s = pg ->
  try_ (inputs_under RadioInput anc) (fun _ => ret [r]) s = (Ok (group_opts pg r anc), s).
Proof. intros <-. destruct anc; reflexivity. Qed.

Lemma length_filter_eqb0 {A} (f : A -> bool) l :
  Nat.eqb (length (filter f l)) 0 = negb (existsb f l).
Proof. induction l as [|x l IH]; simpl; [reflexivity|]. destruct (f x); simpl; auto. Qed.

Lemma fresh_ids_seen c seen ids :
  mem c seen = true -> fresh_ids seen (c :: ids) = fresh_ids seen ids.
Proof. intros H. unfold fresh_ids. simpl. rewrite H. reflexivity. Qed.

Lemma mem_In c seen : mem c seen = true <-> In c seen.
Proof.
  unfold mem. rewrite existsb_exists. split.
  - intros [x [Hx E]]. apply String.eqb_eq in E. subst. exact Hx.
  - intros H. exists c. split; [exact H | apply String.eqb_refl].
Qed.

Lemma fresh_ids_new c seen ids :
  mem c seen = false ->
  (S (length (fresh_ids (c :: seen) ids)) <= length (fresh_ids seen (c :: ids)))%nat.
Proof.
  intros Hc. unfold fresh_ids.
  change (S (length ?l)) with (length (c :: l)).
  apply NoDup_incl_length.
  - constructor; [|apply NoDup_nodup].
    rewrite nodup_In, filter_In. intros [_ H]. simpl in H.
    rewrite String.eqb_refl in H. discriminate.
  - intros x [<-|Hx].
    + apply nodup_In, filter_In. split; [left; reflexivity|]. rewrite Hc. reflexivity.
    + apply nodup_In in Hx. apply filter_In in Hx as [Hin Hn].
      apply nodup_In, filter_In. split; [right; exact Hin|].
      simpl in Hn. destruct (String.eqb x c); [discriminate|exact Hn].
Qed.

(** One commit at most per fresh group id of the rest of the pass. *)
Lemma radios_loop_commits divs : forall rs seen anc,
  commits_le divs (length (fresh_ids seen (pass_ids divs rs anc))) (fun _ => True)
    (radios_loop rs seen anc).
Proof.
  induction rs as [|r rs IH]; intros seen anc; [apply cl_ret; exact I|].
  cbn [radios_loop pass_ids].
  destruct (group_id divs r anc) as [c anc'] eqn:Eg.
  apply (cl_bind0 _ _ (fun _ => True)); [apply cl_gets|intros run _].
  destruct run; cbn [negb]; [|apply cl_ret; exact I].
  apply (cl_bind0 _ _ (fun ca => ca = (c, anc'))).
  { intros s Hs. rewrite (group_id_step divs r anc s Hs), Eg. exists []. rewrite app_nil_r.
    simpl. repeat split; auto. congruence. }
  intros ca ->.
  destruct (mem c seen) eqn:Em.
  { rewrite fresh_ids_seen by exact Em. apply IH. }
  apply (cl_mono _ (S (length (fresh_ids (c :: seen) (pass_ids divs rs anc')))) _
           (fun _ => True)); [apply fresh_ids_new; exact Em | auto |].
  apply (cl_bind0 _ _ (fun _ => True)).
  { intros s Hs. rewrite (group_opts_step (st_page s) r anc' s eq_refl). exists [].
    rewrite app_nil_r. unfold commits. simpl. repeat split; auto. }
  intros opts _.
  apply (cl_bind0 _ _ (fun _ => True)).
  { intros s Hs. rewrite filterM_is_selected. exists [].
    rewrite app_nil_r. unfold commits. simpl. repeat split; auto. }
  intros sel _.
  destruct (negb (Nat.eqb (length sel) 0)).
  { apply (cl_mono _ (length (fresh_ids (c :: seen) (pass_ids divs rs anc'))) _ (fun _ => True));
      [lia|auto|apply IH]. }
  apply (cl_bind0 _ _ (fun _ => True)); [apply cl_mapM_radio_opt_text|intros opts_text _].
  apply (cl_bind0 _ _ (fun _ => True)); [apply cl_get_label_text|intros q0 _].
  apply (cl_bind0 _ _ (fun _ => True)); [apply cl_intelligent_answer|intros pick _].
  apply (cl_bind0 _ _ (fun _ => True)).
  { destruct (match_option pick opts opts_text); [apply cl_ret; exact I|apply cl_choice]. }
  intros chosen _.
  change (S ?n) with (1 + n)%nat.
  apply (cl_bind _ _ _ (fun _ => True)); [apply cl_safe_click|intros ok _].
  apply (cl_bind0 _ _ (fun _ => True)).
  { destruct ok; [apply cl_emit; reflexivity | apply cl_ret; exact I]. }
  intros _ _.
  apply (cl_bind0 _ _ (fun _ => True)); [apply cl_interruptible_sleep|intros paced _].
  destruct paced; cbn [negb]; [apply IH | apply cl_ret; exact I].
Qed.

(** A radio whose group id is already in [seen] is skipped. *)
Lemma radios_loop_skip_seen r rs seen anc c anc' s :
  st_running s = true -> group_id (pg_divs (st_page s)) r anc = (c, anc') ->
  mem c seen = true -> radios_loop (r :: rs) seen anc s = radios_loop rs seen anc' s.
Proof.
  intros Hr Eg Em. cbn [radios_loop]. unfold bind at 1, gets at 1. rewrite Hr. cbn [negb].
  unfold bind at 1. rewrite (group_id_step _ r anc s eq_refl), Eg. rewrite Em. reflexivity.
Qed.

(** A radio of a fresh group with a selected option is skipped, and the
    id is added to [seen]. *)
Lemma radios_loop_skip_answered r rs seen anc c anc' s :
  st_running s = true -> group_id (pg_divs (st_page s)) r anc = (c, anc') ->
  mem c seen = false ->
  existsb (fun o => e_selected (live_in (st_page s) o)) (group_opts (st_page s) r anc') = true ->
  radios_loop (r :: rs) seen anc s = radios_loop rs (c :: seen) anc' s.
Proof.
  intros Hr Eg Em Hsel. cbn [radios_loop]. unfold bind at 1, gets at 1. rewrite Hr. cbn [negb].
  unfold bind at 1. rewrite (group_id_step _ r anc s eq_refl), Eg. rewrite Em.
  unfold bind at 1. rewrite (group_opts_step (st_page s) r anc' s eq_refl).
  unfold bind at 1. rewrite filterM_is_selected, length_filter_eqb0, Hsel. reflexivity.
Qed.

Lemma filter_fresh_nil ids : filter (fun c => negb (mem c [])) ids = ids.
Proof. induction ids as [|c ids IH]; simpl; [reflexivity|]. f_equal. exact IH. Qed.

(** Claim C9 (as amended): within a pass [_answer_radios] skips a radio
    whose group id is already in [seen], and skips (recording its id) a
    group, the radio inputs below the radio's nearest div, that already has
    a selected option.  A pass commits at most once per distinct group id:
    the clicks of stage 1 it records are at most the number of distinct
    ids of its radios.  A pass over a page on which every radio has a div
    ancestor and every such group has a selected option changes nothing. *)
Theorem answer_radios_skips_and_commits :
  (forall r rs seen anc c anc' s,
     st_running s = true -> group_id (pg_divs (st_page s)) r anc = (c, anc') ->
     mem c seen = true ->
     radios_loop (r :: rs) seen anc s = radios_loop rs seen anc' s) /\
  (forall r rs seen anc c anc' s,
     st_running s = true -> group_id (pg_divs (st_page s)) r anc = (c, anc') ->
     mem c seen = false ->
     existsb (fun o => e_selected (live_in (st_page s) o)) (group_opts (st_page s) r anc') = true ->
     radios_loop (r :: rs) seen anc s = radios_loop rs (c :: seen) anc' s) /\
  (forall rs seen anc s, exists evs,
     st_trace (snd (radios_loop rs seen anc s)) = (st_trace s ++ evs)%list /\
     (commits evs <= length (fresh_ids seen (pass_ids (pg_divs (st_page s)) rs anc)))%nat) /\
  (forall s, exists evs,
     st_trace (snd (answer_radios s)) = (st_trace s ++ evs)%list /\
     (commits evs <= length (nodup string_dec (pass_ids (pg_divs (st_page s))
                      (filter (fun e => is_radio (e_kind e)) (pg_elems (st_page s))) None)))%nat) /\
  (forall s,
     NoDup (map e_no (pg_elems (st_page s))) ->
     (forall r, In r (pg_elems (st_page s)) -> is_radio (e_kind r) = true ->
        exists d ds, e_divs r = d :: ds /\
          exists o, In o (pg_elems (st_page s)) /\ e_kind o = RadioInput /\
                    In d (e_divs o) /\ e_selected o = true) ->
     answer_radios s = (Ok tt, s)).
Proof.
  split; [exact radios_loop_skip_seen|].
  split; [exact radios_loop_skip_answered|].
  assert (Hloop : forall rs seen anc s, exists evs,
     st_trace (snd (radios_loop rs seen anc s)) = (st_trace s ++ evs)%list /\
     (commits evs <= length (fresh_ids seen (pass_ids (pg_divs (st_page s)) rs anc)))%nat).
  { intros rs seen anc s.
    destruct (radios_loop_commits (pg_divs (st_page s)) rs seen anc s eq_refl)
      as (evs & T & C & _). exists evs. auto. }
  split; [exact Hloop|].
  split; [|exact answer_radios_all_answered].
  intros s.
  set (L := filter (fun e => is_radio (e_kind e)) (pg_elems (st_page s))).
  assert (E : answer_radios s = (match L with [] => ret tt | _ => radios_loop L [] None end) s)
    by reflexivity.
  rewrite E. destruct (Hloop L [] None s) as (evs & T & C).
  unfold fresh_ids in C. rewrite filter_fresh_nil in C.
  destruct L as [|r0 rs].
  - exists []. rewrite app_nil_r. split; [reflexivity|]. unfold commits. simpl. lia.
  - exists evs. split; [exact T|].
    exact C.
Qed.

Lemma answer_radios_skips_and_commits_witness :
  radios_loop [radio_el 1 "q" [0%nat] (Some "No"%string) None] ["d0"%string] None
    (bot_state answered_radio_page default_profile [])
  = radios_loop [] ["d0"%string] (Some 0%nat) (bot_state answered_radio_page default_profile []) /\
  radios_loop [radio_el 1 "q" [0%nat] (Some "No"%string) None] [] None
    (bot_state answered_radio_page default_profile [])
  = radios_loop [] ["d0"%string] (Some 0%nat) (bot_state answered_radio_page default_profile []) /\
  answer_radios (bot_state answered_radio_page default_profile [])
  = (Ok tt, bot_state answered_radio_page default_profile []).
Proof.
  destruct answer_radios_skips_and_commits as (H1 & H2 & _ & _ & H5).
  split; [apply (H1 _ _ _ _ "d0"%string (Some 0%nat)); vm_compute; reflexivity|].
  split; [apply (H2 _ _ _ _ "d0"%string (Some 0%nat)); vm_compute; reflexivity|].
  apply H5.
  - simpl. constructor; [simpl; intuition discriminate | constructor; [simpl; tauto | constructor]].
  - intros r Hr _. exists 0%nat, []. split.
    + simpl in Hr. destruct Hr as [<-|[<-|[]]]; reflexivity.
    + exists (with_selected true (radio_el 0 "q" [0%nat] (Some "Yes"%string) None)).
      split; [simpl; tauto|]. split; [reflexivity|]. split; [simpl; tauto | reflexivity].
Defined.

(* ------------------------------------------------------------------ *)
(** ** C10: the blank check of the text handlers *)

Lemma do_ret {A} (a : A) : draws_only (ret a).
Proof. intros s. exists (st_rng s). destruct s; reflexivity. Qed.

Lemma do_raise {A} e : draws_only (@raise A e).
Proof. intros s. exists (st_rng s). destruct s; reflexivity. Qed.

Lemma do_gets {A} (f : St -> A) : draws_only (gets f).
Proof. intros s. exists (st_rng s). destruct s; reflexivity. Qed.

Lemma do_draw : draws_only draw.
Proof.
  intros s. unfold draw. destruct (st_rng s) as [|d ds] eqn:E.
  - exists (st_rng s). destruct s; reflexivity.
  - exists ds. reflexivity.
Qed.

Lemma do_bind {A B} (m : M A) (f : A -> M B) :
  draws_only m -> (forall a, draws_only (f a)) -> draws_only (bind m f).
Proof.
  intros Hm Hf s. unfold bind. destruct (Hm s) as [r E].
  destruct (m s) as [[a|e] s1]; simpl in E; subst s1.
  - destruct (Hf a (set_rng r s)) as [r' E']. exists r'. rewrite E'. reflexivity.
  - exists r. reflexivity.
Qed.

Lemma do_try {A} (m : M A) h :
  draws_only m -> (forall e, draws_only (h e)) -> draws_only (try_ m h).
Proof.
  intros Hm Hh s. unfold try_. destruct (Hm s) as [r E].
  destruct (m s) as [[a|e] s1]; simpl in E; subst s1.
  - exists r. reflexivity.
  - destruct (Hh e (set_rng r s)) as [r' E']. exists r'. rewrite E'. reflexivity.
Qed.

(** Steps through a computation that only draws random numbers. *)
Ltac do_steps :=
  repeat match goal with
  | |- draws_only (bind _ _) => apply do_bind; [|intro]
  | |- draws_only (try_ _ _) => apply do_try; [|intro]
  | |- draws_only (ret _) => apply do_ret
  | |- draws_only (raise _) => apply do_raise
  | |- draws_only (gets _) => apply do_gets
  | |- draws_only draw => apply do_draw
  | |- draws_only (randbelow _) => unfold randbelow
  | |- draws_only (if ?b then _ else _) => destruct b
  | |- draws_only (match ?x with _ => _ end) => destruct x
  end.

Lemma do_intelligent_answer q o : draws_only (intelligent_answer q o).
Proof.
  unfold intelligent_answer, ans_yesno, choices_yes_no, ans_numeric, randint, randrange,
    ans_favorite, ans_opinion, ans_fallback, choice, random.
  do_steps.
Qed.

(** [clear()] then [send_keys(ans)] leaves the value [ans]. *)
Lemma clear_then_keys el ans pg :
  map_elems (fun e => if Nat.eqb (e_no e) (e_no el)
                      then with_value (Some (opt_str (e_value e) ++ ans)%string) e else e)
    (map_elems (fun e => if Nat.eqb (e_no e) (e_no el)
                         then with_value (Some EmptyString) e else e) pg)
  = map_elems (fun e => if Nat.eqb (e_no e) (e_no el) then with_value (Some ans) e else e) pg.
Proof.
  unfold map_elems. cbn [pg_elems pg_divs pg_ids pg_iframes pg_texts]. f_equal.
  rewrite map_map. apply map_ext. intros e.
  destruct (Nat.eqb (e_no e) (e_no el)) eqn:E; [|rewrite E; reflexivity].
  cbn [with_value e_no]. rewrite E. reflexivity.
Qed.

(** The [try] body on a field whose live value is blank: the label is
    read, an answer drawn, the field cleared and the answer typed. *)
Lemma fill_field_blank_step q tag el s :
  Py.strip (opt_str (e_value (live_in (st_page s) el))) = EmptyString ->
  e_clear_ok el = true -> e_send_ok el = true ->
  profile_text (st_profile s) <> [] -> profile_textarea (st_profile s) <> [] ->
  exists q0 ans s1,
    get_label_text el s = (Ok q0, s) /\
    intelligent_answer (Some (if Py.truthy q0 then q0 else q)) [] s = (Ok ans, s1) /\
    fill_field q tag el s =
      (Ok false,
       mkSt (map_elems (fun e => if Nat.eqb (e_no e) (e_no el) then with_value (Some ans) e else e)
               (st_page s))
            (st_running s) (st_alive s) (st_driver s) (st_chains s) (st_dmin s) (st_dmax s)
            (st_profile s) (st_rng s1)
            (st_trace s ++ [EvClear (e_no el); EvKeys (e_no el) ans; EvLog tag ans])%list).
Proof.
  intros Hv Hc Hk Ht Hta.
  destruct (get_label_text_pure el s) as [q0 Hl].
  destruct (intelligent_answer_ok (Some (if Py.truthy q0 then q0 else q)) [] s Ht Hta)
    as (ans & s1 & Hia).
  destruct (do_intelligent_answer (Some (if Py.truthy q0 then q0 else q)) [] s) as [r Er].
  rewrite Hia in Er. simpl in Er. subst s1.
  exists q0, ans, (set_rng r s). split; [exact Hl|]. split; [exact Hia|].
  unfold fill_field. unfold bind at 1.
  change (get_value el s) with (@Ok (option string) (e_value (live_in (st_page s) el)), s).
  cbv beta iota zeta. rewrite Hv. change (Py.truthy EmptyString) with false. cbv iota.
  unfold bind at 1. rewrite Hl. cbv beta iota.
  unfold bind at 1. rewrite Hia. cbv beta iota.
  unfold try_, clear_field, send_keys, bind, emit, modify, log, ret. rewrite Hc, Hk.
  cbn. rewrite clear_then_keys. unfold add_event, set_page, set_rng. cbn.
  rewrite <- !app_assoc. reflexivity.
Qed.

Lemma fill_loop_blank_step q tag el rest s s1 :
  st_running s = true -> fill_field q tag el s = (Ok false, s1) ->
  fill_loop q tag (el :: rest) s =
  (paced <- interruptible_sleep ;; if negb paced then ret tt else fill_loop q tag rest) s1.
Proof.
  intros Hr Hf. cbn [fill_loop]. unfold bind at 1, gets at 1. rewrite Hr. cbn [negb].
  unfold bind at 1, try_ at 1. rewrite Hf. reflexivity.
Qed.

(** Claim C10: the text handlers test the stripped value of a field.  A
    field whose value holds a non-whitespace character is left untouched by
    [_answer_texts] and [_answer_textareas] (its element is unchanged and no
    [clear()] or [send_keys()] is issued on it), on any page.  The handlers
    run [fill_loop] over the text inputs, resp. the textareas, of the page;
    an iteration on a field whose live value is only whitespace (while
    [running] holds, the field's [clear()] and [send_keys()] succeed and the
    profile's pools are not empty) reads the label, draws an answer, clears
    the field and types the answer, which becomes its whole value, records
    [clear], the keys and the log line, and goes on pacing. *)
Theorem text_handlers_blank_check :
  (forall (s : St) (n : nat), filled n s ->
     frame n s (snd (answer_texts s)) /\ frame n s (snd (answer_textareas s))) /\
  (forall s,
     answer_texts s =
       fill_loop "text" "[Text]" (filter (fun e => is_text (e_kind e)) (pg_elems (st_page s))) s /\
     answer_textareas s =
       fill_loop "textarea" "[Textarea]"
         (filter (fun e => is_textarea (e_kind e)) (pg_elems (st_page s))) s) /\
  (forall q tag el rest s,
     st_running s = true ->
     Py.strip (opt_str (e_value (live_in (st_page s) el))) = EmptyString ->
     e_clear_ok el = true -> e_send_ok el = true ->
     profile_text (st_profile s) <> [] -> profile_textarea (st_profile s) <> [] ->
     exists q0 ans s1,
       get_label_text el s = (Ok q0, s) /\
       intelligent_answer (Some (if Py.truthy q0 then q0 else q)) [] s = (Ok ans, s1) /\
       fill_field q tag el s =
         (Ok false,
          mkSt (map_elems (fun e => if Nat.eqb (e_no e) (e_no el)
                                    then with_value (Some ans) e else e) (st_page s))
               (st_running s) (st_alive s) (st_driver s) (st_chains s) (st_dmin s) (st_dmax s)
               (st_profile s) (st_rng s1)
               (st_trace s ++ [EvClear (e_no el); EvKeys (e_no el) ans; EvLog tag ans])%list) /\
       fill_loop q tag (el :: rest) s =
         (paced <- interruptible_sleep ;; if negb paced then ret tt else fill_loop q tag rest)
           (snd (fill_field q tag el s))).
Proof.
  split.
  { intros s n Hs. split.
    - assert (H : keeps n answer_texts)
        by (unfold answer_texts, find_kinds; keeps_steps; apply keeps_fill_loop).
      exact (H s Hs).
    - assert (H : keeps n answer_textareas)
        by (unfold answer_textareas, find_kinds; keeps_steps; apply keeps_fill_loop).
      exact (H s Hs). }
  split; [intros s; split; reflexivity|].
  intros q tag el rest s Hr Hv Hc Hk Ht Hta.
  destruct (fill_field_blank_step q tag el s Hv Hc Hk Ht Hta) as (q0 & ans & s1 & Hl & Hia & Hf).
  exists q0, ans, s1. split; [exact Hl|]. split; [exact Hia|]. split; [exact Hf|].
  rewrite Hf. exact (fill_loop_blank_step q tag el rest s _ Hr Hf).
Qed.

Lemma text_handlers_blank_check_witness :
  let pg := page_of [text_el 0 TextInput (Some "Ann"%string); text_el 1 TextInput (Some "  "%string);
                     text_el 2 TextArea None] [] in
  let s0 := bot_state pg default_profile [3; 1; 4] in
  filled 0 s0 /\ frame 0 s0 (snd (answer_texts s0)) /\
  exists q0 ans s1,
    get_label_text (text_el 1 TextInput (Some "  "%string)) s0 = (Ok q0, s0) /\
    intelligent_answer (Some (if Py.truthy q0 then q0 else "text"%string)) [] s0 = (Ok ans, s1) /\
    fill_field "text" "[Text]" (text_el 1 TextInput (Some "  "%string)) s0 =
      (Ok false,
       mkSt (map_elems (fun e => if Nat.eqb (e_no e) 1 then with_value (Some ans) e else e) pg)
            true true true true f1_0 f2_5 default_profile (st_rng s1)
            [EvClear 1; EvKeys 1 ans; EvLog "[Text]" ans]) /\
    fill_loop "text" "[Text]" [text_el 1 TextInput (Some "  "%string); text_el 2 TextArea None] s0 =
      (paced <- interruptible_sleep ;;
       if negb paced then ret tt else fill_loop "text" "[Text]" [text_el 2 TextArea None])
        (snd (fill_field "text" "[Text]" (text_el 1 TextInput (Some "  "%string)) s0)).
Proof.
  intros pg s0.
  assert (H1 : filled 0 s0) by (vm_compute; reflexivity).
  split; [exact H1|]. split; [exact (proj1 (proj1 text_handlers_blank_check s0 0%nat H1))|].
  apply (proj2 (proj2 text_handlers_blank_check) "text"%string "[Text]"%string
           (text_el 1 TextInput (Some "  "%string)) [text_el 2 TextArea None] s0);
    [reflexivity | vm_compute; reflexivity | reflexivity | reflexivity
    | cbv; discriminate | cbv; discriminate].
Defined.
